(** * NetBox API authentication and permission gate

    A shallow embedding of [netbox/netbox/api/authentication.py]:
    [TokenAuthentication.authenticate_credentials], the three methods of
    [TokenPermissions] and [IsAuthenticatedOrLoginNotRequired.has_permission],
    followed by the properties the design contract states about them.

    Python statements that touch the outside world (the token table, the
    clock, the logger, the LDAP directory, the permission classes of the REST
    framework) are run in a state-and-exception monad [Eff] over an explicit
    [World]. *)

From stdpp Require Import base option list strings gmap.
From Stdlib Require Import ZArith Lia.

Local Open Scope Z_scope.

(** ** Data model *)

(** An instant is a [datetime]: microseconds since the epoch. *)
Definition Instant : Type := Z.

Definition MICROSECONDS_PER_SECOND : Z := 1000000.

Definition seconds (n : Z) : Z := n * MICROSECONDS_PER_SECOND.

(** [users.User]: the two columns the module reads. *)
Record User : Type := mkUser {
  username : string;
  is_active : bool
}.

(** The columns of one row of the [users.Token] table, apart from the unique
    [key] column the row is filed under. *)
Record TokenRow : Type := mkTokenRow {
  user : User;
  expires : option Instant;
  last_used : option Instant;
  write_enabled : bool
}.

(** A [Token] instance in memory: the row together with its key.  The
    coercion lets [last_used token] read like [token.last_used]. *)
Record Token : Type := mkToken {
  key : string;
  row :> TokenRow
}.

(** [token.last_used = now] *)
Definition set_last_used (now : Instant) (token : Token) : Token :=
  {| key := key token;
     row := {| user := user token;
               expires := expires token;
               last_used := Some now;
               write_enabled := write_enabled token |} |}.

(** What [request.user] holds: a [User], or Django's [AnonymousUser]. *)
Inductive RequestUser : Type :=
  | AuthenticatedUser (u : User)
  | AnonymousUser.

(** [request.user.is_authenticated]: the attribute is [True] on every [User]
    and [False] on [AnonymousUser]. *)
Definition is_authenticated (u : RequestUser) : bool :=
  match u with
  | AuthenticatedUser _ => true
  | AnonymousUser => false
  end.

(** What [request.auth] holds: a [Token] when token authentication accepted
    the request, [None] or some other credential object otherwise. *)
Inductive Credential : Type :=
  | TokenCredential (token : Token)
  | OtherCredential (description : string)
  | NoCredential.

(** [isinstance(request.auth, Token)] *)
Definition isinstance_Token (c : Credential) : bool :=
  match c with
  | TokenCredential _ => true
  | _ => false
  end.

Record Request : Type := mkRequest {
  method : string;
  auth : Credential;
  request_user : RequestUser
}.

(** The values a Python function that either runs [return True] or falls off
    its end can hand back. *)
Inductive PyValue : Type :=
  | PyBool (b : bool)
  | PyNone.

(** Python's truth value of such a result, as [not] and [if] test it. *)
Definition truth (v : PyValue) : bool :=
  match v with
  | PyBool b => b
  | PyNone => false
  end.

(** The process-wide configuration the module reads: [settings.LOGIN_REQUIRED],
    [settings.REMOTE_AUTH_BACKEND], [get_config().MAINTENANCE_MODE] and
    [LDAPBackend().settings.FIND_GROUP_PERMS]. *)
Record Environment : Type := mkEnvironment {
  LOGIN_REQUIRED : bool;
  REMOTE_AUTH_BACKEND : string;
  MAINTENANCE_MODE : bool;
  FIND_GROUP_PERMS : bool
}.

(** ** Effects *)

Inductive Exn : Type :=
  | DoesNotExist
  | AuthenticationFailed (detail : string)
  | AttributeError (detail : string)
  | FrameworkException (name : string).

(** What the module does to its collaborators, oldest event last. *)
Inductive Event : Type :=
  | EvTokenSave (token : Token)
  | EvLogWarning (logger message : string)
  | EvLdapBackend
  | EvLdapPopulateUser (name : string)
  | EvSuperHasPermission
  | EvSuperHasObjectPermission.

Record World : Type := mkWorld {
  (** the [users.Token] table, indexed by its unique [key] column *)
  tokens : gmap string TokenRow;
  (** the accounts the LDAP directory knows, by username *)
  directory : gmap string User;
  (** the last instant the clock showed *)
  clock : Instant;
  (** how long passes before each of the coming readings of the clock *)
  pending : list N;
  trace : list Event
}.

Inductive Outcome (A : Type) : Type :=
  | Returned (a : A)
  | Raised (e : Exn).
Arguments Returned {A} a.
Arguments Raised {A} e.

Definition Eff (A : Type) : Type := World → Outcome A * World.

(** [return a] *)
Definition ret {A : Type} (a : A) : Eff A := λ w, (Returned a, w).

(** Run [m], then the rest of the body on its result; an exception [m] raises
    ends the body there, with whatever [m] already did to the world. *)
Definition bind {A B : Type} (m : Eff A) (f : A → Eff B) : Eff B := λ w,
  match m w with
  | (Returned a, w') => f a w'
  | (Raised e, w') => (Raised e, w')
  end.

Notation "'do' x <- m ; k" := (bind m (fun x => k))
  (at level 10, x name, m at level 100, k at level 200,
   format "'[v' 'do'  x  <-  m ; '/' k ']'").

(** [raise e] *)
Definition raise {A : Type} (e : Exn) : Eff A := λ w, (Raised e, w).

(** [try: body / except exc: handler], for the exception [exc] alone. *)
Definition try_except {A : Type} (body : Eff A) (exc : Exn → bool)
    (handler : Eff A) : Eff A := λ w,
  match body w with
  | (Raised e, w') => if exc e then handler w' else (Raised e, w')
  | returned => returned
  end.

Definition is_DoesNotExist (e : Exn) : bool :=
  match e with
  | DoesNotExist => true
  | _ => false
  end.

Definition record (ev : Event) : Eff unit := λ w,
  (Returned tt,
   {| tokens := tokens w; directory := directory w; clock := clock w;
      pending := pending w; trace := ev :: trace w |}).

(** The instant the next [timezone.now()] returns: time only moves forward. *)
Definition next_now (w : World) : Instant :=
  clock w + Z.of_N (hd 0%N (pending w)).

(** [timezone.now()] *)
Definition timezone_now : Eff Instant := λ w,
  (Returned (next_now w),
   {| tokens := tokens w; directory := directory w; clock := next_now w;
      pending := tl (pending w); trace := trace w |}).

(** [model.objects.prefetch_related('user').get(key=key)] *)
Definition Token_objects_get (k : string) : Eff Token := λ w,
  match tokens w !! k with
  | Some r => (Returned {| key := k; row := r |}, w)
  | None => (Raised DoesNotExist, w)
  end.

(** [token.save()]: the row the instance was loaded from is overwritten. *)
Definition Token_save (token : Token) : Eff unit := λ w,
  (Returned tt,
   {| tokens := <[key token := row token]> (tokens w);
      directory := directory w; clock := clock w; pending := pending w;
      trace := EvTokenSave token :: trace w |}).

(** [logging.getLogger(name).warning(message)] *)
Definition logger_warning (name message : string) : Eff unit :=
  record (EvLogWarning name message).

(** [LDAPBackend()] *)
Definition LDAPBackend_init : Eff unit := record EvLdapBackend.

(** [ldap_backend.populate_user(username)]: the account the directory holds
    under that name, or [None]. *)
Definition populate_user (name : string) : Eff (option User) := λ w,
  (Returned (directory w !! name),
   {| tokens := tokens w; directory := directory w; clock := clock w;
      pending := pending w; trace := EvLdapPopulateUser name :: trace w |}).

(** Modelled from the spec: the [is_expired] property of [users.models.Token],
    which is not part of this module.  A token is expired when its expiration
    instant is set and is in the past. *)
Definition is_expired (token : Token) : Eff bool :=
  match expires token with
  | None => ret false
  | Some e => do now <- timezone_now; ret (e <? now)
  end.

(** ** [class TokenAuthentication] *)

Module TokenAuthentication.

(** [not token.last_used or
     (timezone.now() - token.last_used).total_seconds() > 6].
    [total_seconds()] divides the whole number of microseconds by [10**6];
    the quotient exceeds 6 exactly when the difference exceeds six million
    microseconds. *)
Definition last_used_is_stale (token : Token) : Eff bool :=
  match last_used token with
  | None => ret true
  | Some lu =>
      do now <- timezone_now;
      ret (seconds 6 <? now - lu)
  end.

(** Lines 26 to 34: the bookkeeping of [last_used].  The result is the
    [token] instance as the rest of the method sees it. *)
Definition update_last_used (env : Environment) (token : Token) : Eff Token :=
  do stale <- last_used_is_stale token;
  if stale : bool then
    if MAINTENANCE_MODE env then
      do _ <- logger_warning "netbox.auth.login"
        "Maintenance mode enabled: disabling update of token's last used timestamp";
      ret token
    else
      do now <- timezone_now;
      let token := set_last_used now token in
      do _ <- Token_save token;
      ret token
  else ret token.

(** Lines 43 to 55: the LDAP override and the final [return]. *)
Definition resolve_user (env : Environment) (token : Token) : Eff (User * Token) :=
  if String.eqb (REMOTE_AUTH_BACKEND env) "netbox.authentication.LDAPBackend" then
    do _ <- LDAPBackend_init;
    if FIND_GROUP_PERMS env then
      do found <- populate_user (username (user token));
      match found with
      | Some ldap_user => ret (ldap_user, token)
      | None => ret (user token, token)
      end
    else ret (user token, token)
  else ret (user token, token).

Definition authenticate_credentials (env : Environment) (k : string)
    : Eff (User * Token) :=
  do token <- try_except (Token_objects_get k) is_DoesNotExist
             (raise (AuthenticationFailed "Invalid token"));
  do token <- update_last_used env token;
  do expired <- is_expired token;
  if expired : bool then raise (AuthenticationFailed "Token expired")
  else if negb (is_active (user token)) then
    raise (AuthenticationFailed "User inactive")
  else resolve_user env token.

End TokenAuthentication.

(** ** [class TokenPermissions(DjangoObjectPermissions)] *)

(** The two methods of the REST framework's [DjangoObjectPermissions] that the
    subclass reaches through [super()].  They are the framework's, may consult
    the database and may raise. *)
Class DjangoObjectPermissions (View Obj : Type) : Type := {
  super_has_permission : Request → View → Eff bool;
  super_has_object_permission : Request → View → Obj → Eff bool
}.

(** Modelled from the spec: [rest_framework.permissions.SAFE_METHODS], a
    constant of the REST framework.  The safe methods are GET, HEAD and
    OPTIONS. *)
Definition SAFE_METHODS : list string := ["GET"; "HEAD"; "OPTIONS"]%string.

(** [x in t] for a tuple of strings *)
Definition str_in (x : string) (t : list string) : bool :=
  existsb (String.eqb x) t.

(** [credential.write_enabled]: only a [Token] has the attribute. *)
Definition getattr_write_enabled (c : Credential) : Eff bool :=
  match c with
  | TokenCredential token => ret (write_enabled token)
  | OtherCredential _ => raise (AttributeError "write_enabled")
  | NoCredential => raise (AttributeError "write_enabled")
  end.

Module TokenPermissions.
Section Methods.

Context {View Obj : Type} {base : DjangoObjectPermissions View Obj}.

(** [if request.method in SAFE_METHODS or request.auth.write_enabled:
       return True]
    and nothing else: when the test fails the method falls off its end and
    the caller receives [None]. *)
Definition _verify_write_permission (request : Request) : Eff PyValue :=
  do test <- (if str_in (method request) SAFE_METHODS then ret true
              else getattr_write_enabled (auth request));
  if test : bool then ret (PyBool true) else ret PyNone.

(** [isinstance(request.auth, Token) and
     not self._verify_write_permission(request)] *)
Definition token_forbids_write (request : Request) : Eff bool :=
  if isinstance_Token (auth request) then
    do verdict <- _verify_write_permission request;
    ret (negb (truth verdict))
  else ret false.

Definition has_permission (request : Request) (view : View) : Eff bool :=
  do forbidden <- token_forbids_write request;
  if forbidden : bool then ret false
  else
    do _ <- record EvSuperHasPermission;
    super_has_permission request view.

Definition has_object_permission (request : Request) (view : View)
    (obj : Obj) : Eff bool :=
  do forbidden <- token_forbids_write request;
  if forbidden : bool then ret false
  else
    do _ <- record EvSuperHasObjectPermission;
    super_has_object_permission request view obj.

End Methods.

(** The class attribute [perms_map]: the dictionary literal of lines 64 to
    72, its items in the order they are written. *)
Definition perms_map : list (string * list string) :=
  [("GET", ["%(app_label)s.view_%(model_name)s"]);
   ("OPTIONS", []);
   ("HEAD", ["%(app_label)s.view_%(model_name)s"]);
   ("POST", ["%(app_label)s.add_%(model_name)s"]);
   ("PUT", ["%(app_label)s.change_%(model_name)s"]);
   ("PATCH", ["%(app_label)s.change_%(model_name)s"]);
   ("DELETE", ["%(app_label)s.delete_%(model_name)s"])]%string.

End TokenPermissions.

(** [d.get(k)] on a dictionary given by its items: the value of the item
    whose key is [k], [None] when there is none. *)
Definition dict_get {V : Type} (d : list (string * V)) (k : string) : option V :=
  snd <$> List.find (λ item, String.eqb (fst item) k) d.

(** ** [class IsAuthenticatedOrLoginNotRequired(BasePermission)] *)

Module IsAuthenticatedOrLoginNotRequired.

Definition has_permission {View : Type} (env : Environment)
    (request : Request) (view : View) : Eff bool :=
  if negb (LOGIN_REQUIRED env) then ret true
  else ret (is_authenticated (request_user request)).

End IsAuthenticatedOrLoginNotRequired.

(** ** Requests served one after the other *)

(** The world after one call of [authenticate_credentials], whatever its
    outcome. *)
Definition after_call (env : Environment) (k : string) (w : World) : World :=
  snd (TokenAuthentication.authenticate_credentials env k w).

(** A worker that authenticates the presented keys in turn, each call under
    the configuration in force when it runs. *)
Fixpoint serve (calls : list (Environment * string)) (w : World) : World :=
  match calls with
  | [] => w
  | (env, k) :: rest => serve rest (after_call env k w)
  end.

(** ** Observing a trace *)

Definition is_log_event (ev : Event) : bool :=
  match ev with
  | EvLogWarning _ _ => true
  | _ => false
  end.

(** The events that reach the LDAP directory. *)
Definition is_ldap_event (ev : Event) : bool :=
  match ev with
  | EvLdapBackend | EvLdapPopulateUser _ => true
  | _ => false
  end.

Definition is_log_or_ldap_event (ev : Event) : bool :=
  is_log_event ev || is_ldap_event ev.

(** The calls of [token.save()]. *)
Definition is_save_event (ev : Event) : bool :=
  match ev with
  | EvTokenSave _ => true
  | _ => false
  end.

(** The calls through [super()]. *)
Definition is_super_event (ev : Event) : bool :=
  match ev with
  | EvSuperHasPermission | EvSuperHasObjectPermission => true
  | _ => false
  end.

(** What a world's trace shows of each collaborator. *)
Definition ldap_contacts (w : World) : list Event :=
  List.filter is_ldap_event (trace w).

Definition saves (w : World) : list Event :=
  List.filter is_save_event (trace w).

Definition super_calls (w : World) : list Event :=
  List.filter is_super_event (trace w).

(** The calls of [token.save()] on the token filed under [k]. *)
Definition is_save_of (k : string) (ev : Event) : bool :=
  match ev with
  | EvTokenSave token => String.eqb (key token) k
  | _ => false
  end.

Definition saves_of (k : string) (w : World) : list Event :=
  List.filter (is_save_of k) (trace w).

(** [w'] comes from [w] through reads of the clock and events of the kind
    [noise] only: the token table and the directory are as they were. *)
Record quiet_upto (noise : Event → bool) (w w' : World) : Prop := mkQuiet {
  quiet_tokens : tokens w' = tokens w;
  quiet_directory : directory w' = directory w;
  quiet_clock : clock w ≤ clock w';
  quiet_trace : ∃ evs, trace w' = evs ++ trace w ∧ forallb noise evs = true
}.

(** Whether the staleness test of line 26 succeeds in [w]. *)
Definition stale_in (w : World) (token : Token) : bool :=
  match last_used token with
  | None => true
  | Some lu => seconds 6 <? next_now w - lu
  end.

(** ** Scenarios *)

Module Scenario.

Definition alice : User := {| username := "alice"; is_active := true |}.

Definition bob : User := {| username := "bob"; is_active := false |}.

(** The account the directory holds under alice's name. *)
Definition alice_ldap : User := {| username := "Alice"; is_active := true |}.

Definition local_auth : Environment :=
  {| LOGIN_REQUIRED := true;
     REMOTE_AUTH_BACKEND := "netbox.authentication.RemoteUserBackend";
     MAINTENANCE_MODE := false;
     FIND_GROUP_PERMS := false |}.

Definition maintenance : Environment :=
  {| LOGIN_REQUIRED := true;
     REMOTE_AUTH_BACKEND := "netbox.authentication.RemoteUserBackend";
     MAINTENANCE_MODE := true;
     FIND_GROUP_PERMS := false |}.

Definition ldap_auth : Environment :=
  {| LOGIN_REQUIRED := true;
     REMOTE_AUTH_BACKEND := "netbox.authentication.LDAPBackend";
     MAINTENANCE_MODE := false;
     FIND_GROUP_PERMS := true |}.

(** A world with one token, ["abc123"], at the instant [now] seconds. *)
Definition one_token (r : TokenRow) (now : Z) (delays : list N) : World :=
  {| tokens := {[ "abc123"%string := r ]};
     directory := {[ "alice"%string := alice_ldap ]};
     clock := seconds now;
     pending := delays;
     trace := [] |}.

(** Scenario C: the token expired one second ago and was never used. *)
Definition expired_row : TokenRow :=
  {| user := alice; expires := Some (seconds 999); last_used := None;
     write_enabled := true |}.

Definition expired_world : World := one_token expired_row 1000 [].

(** An expired, read-only token of a deactivated user. *)
Definition expired_inactive_row : TokenRow :=
  {| user := bob; expires := Some (seconds 999); last_used := None;
     write_enabled := false |}.

(** A token that never expires and was never used. *)
Definition fresh_row : TokenRow :=
  {| user := alice; expires := None; last_used := None;
     write_enabled := true |}.

(** The same token, last used at the instant 1000 seconds. *)
Definition used_row : TokenRow :=
  {| user := alice; expires := None; last_used := Some (seconds 1000);
     write_enabled := true |}.

(** A valid token of a deactivated user. *)
Definition inactive_row : TokenRow :=
  {| user := bob; expires := None; last_used := Some (seconds 1000);
     write_enabled := true |}.

(** Scenario A: a read-only token presented with POST. *)
Definition read_only_token : Token :=
  {| key := "abc123";
     row := {| user := alice; expires := None; last_used := None;
               write_enabled := false |} |}.

Definition post_with_read_only_token : Request :=
  {| method := "POST"; auth := TokenCredential read_only_token;
     request_user := AuthenticatedUser alice |}.

(** A POST from a browser session: no token. *)
Definition post_with_session : Request :=
  {| method := "POST"; auth := NoCredential;
     request_user := AuthenticatedUser alice |}.

(** Scenario D: nobody is logged in. *)
Definition anonymous_get : Request :=
  {| method := "GET"; auth := NoCredential; request_user := AnonymousUser |}.

(** A base class that grants everything and leaves its mark on the clock,
    so that a call through [super()] shows in the world. *)
#[local] Instance permissive : DjangoObjectPermissions unit unit :=
  {| super_has_permission := λ _ _ w,
       (Returned true,
        {| tokens := tokens w; directory := directory w;
           clock := clock w + 1; pending := pending w; trace := trace w |});
     super_has_object_permission := λ _ _ _ w,
       (Returned true,
        {| tokens := tokens w; directory := directory w;
           clock := clock w + 1; pending := pending w; trace := trace w |}) |}.

End Scenario.

(** ** Further observers and invariants *)

(** The round trips to the directory: calls of [populate_user]. *)
Definition is_populate_event (ev : Event) : bool :=
  match ev with
  | EvLdapPopulateUser _ => true
  | _ => false
  end.

Definition populate_calls (w : World) : list Event :=
  List.filter is_populate_event (trace w).

(** The lines written to the log. *)
Definition log_lines (w : World) : list Event :=
  List.filter is_log_event (trace w).

(** No row carries a [last_used] stamp later than the clock. *)
Definition stamps_not_ahead (w : World) : Prop :=
  ∀ k r t, tokens w !! k = Some r → last_used r = Some t → t ≤ clock w.

(** Lines 36 to 55 of [authenticate_credentials], the part that follows the
    bookkeeping of [last_used], as a computation of its own. *)
Definition enforce_and_resolve (env : Environment) (token : Token)
    : Eff (User * Token) :=
  do expired <- is_expired token;
  if expired : bool then raise (AuthenticationFailed "Token expired")
  else if negb (is_active (user token)) then
    raise (AuthenticationFailed "User inactive")
  else TokenAuthentication.resolve_user env token.

(** The name of the LDAP backend that line 44 compares with. *)
Definition LDAP_BACKEND : string := "netbox.authentication.LDAPBackend".

(** The warning of line 31. *)
Definition maintenance_warning : Event :=
  EvLogWarning "netbox.auth.login"
    "Maintenance mode enabled: disabling update of token's last used timestamp".

(** * Properties *)

Import TokenAuthentication.

(** ** The clock and quiet steps *)

Lemma next_now_ge (w : World) : clock w ≤ next_now w.
Proof. unfold next_now. lia. Qed.

Section Quiet.

Variable noise : Event → bool.

Lemma quiet_refl (w : World) : quiet_upto noise w w.
Proof. split; try reflexivity. by exists []. Qed.

Lemma quiet_trans (w1 w2 w3 : World) :
  quiet_upto noise w1 w2 → quiet_upto noise w2 w3 → quiet_upto noise w1 w3.
Proof.
  intros [Ht Hd Hc (evs & He & Hn)] [Ht' Hd' Hc' (evs' & He' & Hn')].
  split; try congruence; [lia|].
  exists (evs' ++ evs). split.
  - by rewrite He', He, app_assoc.
  - by rewrite forallb_app, Hn, Hn'.
Qed.

Lemma timezone_now_quiet (w : World) :
  quiet_upto noise w (snd (timezone_now w)).
Proof.
  split; try reflexivity; simpl; [apply next_now_ge | by exists []].
Qed.

Lemma record_quiet (ev : Event) (w : World) :
  noise ev = true → quiet_upto noise w (snd (record ev w)).
Proof.
  intros Hn. split; try reflexivity. exists [ev]. simpl. by rewrite Hn.
Qed.

(** An observer that is blind to the noise sees the same trace. *)
Lemma quiet_filter (p : Event → bool) (w w' : World) :
  (∀ ev, noise ev = true → p ev = false) →
  quiet_upto noise w w' →
  List.filter p (trace w') = List.filter p (trace w).
Proof.
  intros Hblind [_ _ _ (evs & -> & Hn)].
  rewrite List.filter_app.
  induction evs as [|ev evs IH]; [done|].
  simpl in *. apply andb_true_iff in Hn as [Hev Hn].
  rewrite (Hblind ev Hev). by apply IH.
Qed.

End Quiet.

Lemma quiet_weaken (noise noise' : Event → bool) (w w' : World) :
  (∀ ev, noise ev = true → noise' ev = true) →
  quiet_upto noise w w' → quiet_upto noise' w w'.
Proof.
  intros Hsub [Ht Hd Hc (evs & He & Hn)]. split; try done.
  exists evs. split; [done|].
  apply forallb_forall. intros ev Hin.
  apply Hsub. by eapply forallb_forall in Hn.
Qed.

(** ** The bookkeeping of [last_used] *)

Lemma last_used_is_stale_run (token : Token) (w : World) :
  ∃ w', last_used_is_stale token w = (Returned (stale_in w token), w')
        ∧ quiet_upto is_log_event w w'
        ∧ (last_used token = None → w' = w)
        ∧ (is_Some (last_used token) → clock w' = next_now w).
Proof.
  unfold last_used_is_stale, stale_in.
  destruct (last_used token) as [lu|]; simpl.
  - eexists; split; [reflexivity|].
    split; [apply timezone_now_quiet|].
    split; [discriminate|reflexivity].
  - exists w. split; [reflexivity|].
    split; [apply quiet_refl|].
    split; [reflexivity|]. intros [? [=]].
Qed.

(** The bookkeeping never raises.  Either it leaves the table alone and the
    instance as loaded, or it has stamped the instance with a reading of the
    clock and saved it. *)
Lemma update_last_used_run (env : Environment) (token : Token) (w : World) :
  (∃ w',
     update_last_used env token w = (Returned token, w')
     ∧ quiet_upto is_log_event w w'
     ∧ (stale_in w token = false ∨ MAINTENANCE_MODE env = true)
     ∧ (is_Some (last_used token) → next_now w ≤ clock w'))
  ∨
  (∃ now w0,
     update_last_used env token w
     = (Returned (set_last_used now token),
        snd (Token_save (set_last_used now token) w0))
     ∧ stale_in w token = true
     ∧ MAINTENANCE_MODE env = false
     ∧ quiet_upto is_log_event w w0
     ∧ next_now w ≤ now
     ∧ clock w0 = now).
Proof.
  unfold update_last_used, bind.
  destruct (last_used_is_stale_run token w) as (w1 & -> & Hq & Hnone & Hsome).
  destruct (stale_in w token) eqn:Hstale.
  - destruct (MAINTENANCE_MODE env) eqn:Hm.
    + left. eexists. split; [reflexivity|].
      split; [|split; [by right|]].
      * eapply quiet_trans; [exact Hq|]. by apply record_quiet.
      * intros Hs. simpl. rewrite (Hsome Hs). lia.
    + right. exists (next_now w1), (snd (timezone_now w1)).
      split; [reflexivity|].
      split; [done|]. split; [done|].
      split; [eapply quiet_trans; [exact Hq|apply timezone_now_quiet]|].
      split; [|reflexivity].
      destruct (last_used token) as [lu|] eqn:Hlu.
      * pose proof (next_now_ge w1) as Hge.
        rewrite Hsome in Hge by eauto. lia.
      * rewrite Hnone by done. lia.
  - left. exists w1. split; [reflexivity|].
    split; [done|]. split; [by left|].
    intros Hs. rewrite (Hsome Hs). lia.
Qed.

(** ** Lookup, the two checks and the LDAP override *)

Lemma lookup_found (k : string) (r : TokenRow) (w : World) :
  tokens w !! k = Some r →
  try_except (Token_objects_get k) is_DoesNotExist
    (raise (AuthenticationFailed "Invalid token")) w
  = (Returned {| key := k; row := r |}, w).
Proof. intros H. unfold try_except, Token_objects_get. by rewrite H. Qed.

Lemma lookup_missing (k : string) (w : World) :
  tokens w !! k = None →
  try_except (Token_objects_get k) is_DoesNotExist
    (raise (AuthenticationFailed "Invalid token")) w
  = (Raised (AuthenticationFailed "Invalid token"), w).
Proof. intros H. unfold try_except, Token_objects_get. by rewrite H. Qed.

(** What [token.is_expired] answers in [w]. *)
Lemma is_expired_run (token : Token) (w : World) :
  ∃ w', is_expired token w
        = (Returned (match expires token with
                     | None => false
                     | Some e => e <? next_now w
                     end), w')
        ∧ quiet_upto is_log_event w w'.
Proof.
  unfold is_expired. destruct (expires token) as [e|].
  - eexists. split; [reflexivity|]. apply timezone_now_quiet.
  - exists w. split; [reflexivity|]. apply quiet_refl.
Qed.

Lemma is_expired_past (token : Token) (e : Instant) (w : World) :
  expires token = Some e → e < clock w →
  ∃ w', is_expired token w = (Returned true, w')
        ∧ quiet_upto is_log_event w w'.
Proof.
  intros He Hlt.
  destruct (is_expired_run token w) as (w' & Hrun & Hq).
  exists w'. split; [|done].
  rewrite Hrun, He.
  pose proof (next_now_ge w).
  by replace (e <? next_now w) with true by (symmetry; apply Z.ltb_lt; lia).
Qed.

Lemma log_is_log_or_ldap (ev : Event) :
  is_log_event ev = true → is_log_or_ldap_event ev = true.
Proof. unfold is_log_or_ldap_event. by intros ->. Qed.

(** The override never raises, never replaces the token, and touches nothing
    but the directory. *)
Lemma resolve_user_run (env : Environment) (token : Token) (w : World) :
  ∃ u w', resolve_user env token w = (Returned (u, token), w')
          ∧ quiet_upto is_log_or_ldap_event w w'.
Proof.
  unfold resolve_user.
  destruct (String.eqb _ _); [|by exists (user token), w; split; [|apply quiet_refl]].
  unfold bind at 1, LDAPBackend_init.
  assert (quiet_upto is_log_or_ldap_event w (snd (record EvLdapBackend w)))
    as Hinit by by apply record_quiet.
  simpl. destruct (FIND_GROUP_PERMS env).
  - unfold bind, populate_user. simpl.
    set (w2 := {| tokens := _ |}).
    assert (quiet_upto is_log_or_ldap_event w w2) as Hq.
    { eapply quiet_trans; [exact Hinit|].
      split; try reflexivity.
      exists [EvLdapPopulateUser (username (user token))]. by split. }
    destruct (directory w !! username (user token)) as [ldap_user|].
    + by exists ldap_user, w2.
    + by exists (user token), w2.
  - by eexists _, _.
Qed.

(** The body of [authenticate_credentials] once the row is found. *)
Lemma authenticate_credentials_found (env : Environment) (k : string)
    (r : TokenRow) (w : World) :
  tokens w !! k = Some r →
  authenticate_credentials env k w
  = (do token <- update_last_used env {| key := k; row := r |};
     do expired <- is_expired token;
     if expired : bool then raise (AuthenticationFailed "Token expired")
     else if negb (is_active (user token)) then
       raise (AuthenticationFailed "User inactive")
     else resolve_user env token) w.
Proof.
  intros H. unfold authenticate_credentials, bind at 1.
  by rewrite (lookup_found k r w H).
Qed.

Lemma after_call_missing (env : Environment) (k : string) (w : World) :
  tokens w !! k = None → after_call env k w = w.
Proof.
  intros H. unfold after_call, authenticate_credentials, bind at 1.
  by rewrite (lookup_missing k w H).
Qed.

(** Whatever the outcome of a call that found its row, only the bookkeeping
    writes to the token table: what follows it reads the clock and may
    consult the directory. *)
Lemma after_call_found (env : Environment) (k : string) (r : TokenRow)
    (w : World) :
  tokens w !! k = Some r →
  ∃ token' w1,
    update_last_used env {| key := k; row := r |} w = (Returned token', w1)
    ∧ quiet_upto is_log_or_ldap_event w1 (after_call env k w).
Proof.
  intros Hk. unfold after_call.
  rewrite (authenticate_credentials_found env k r w Hk). unfold bind at 1.
  assert (∃ token' w1,
    update_last_used env {| key := k; row := r |} w = (Returned token', w1))
    as (token' & w1 & Hrun).
  { destruct (update_last_used_run env {| key := k; row := r |} w)
      as [(w1 & Hrun & _) | (now & w0 & Hrun & _)]; eauto. }
  exists token', w1. split; [done|]. rewrite Hrun.
  unfold bind at 1.
  destruct (is_expired_run token' w1) as (w2 & -> & Hq).
  apply (quiet_weaken _ _ _ _ log_is_log_or_ldap) in Hq.
  destruct (match expires token' with Some e => e <? next_now w1 | None => false end);
    [done|].
  destruct (negb (is_active (user token'))); [done|].
  destruct (resolve_user_run env token' w2) as (u & w3 & -> & Hq3).
  by eapply quiet_trans.
Qed.

(** An expired token is turned away right after the bookkeeping. *)
Lemma expired_after_bookkeeping (env : Environment) (k : string)
    (r : TokenRow) (e : Instant) (w : World) :
  tokens w !! k = Some r → expires r = Some e → e < clock w →
  ∃ token' w1 w2,
    update_last_used env {| key := k; row := r |} w = (Returned token', w1)
    ∧ authenticate_credentials env k w
      = (Raised (AuthenticationFailed "Token expired"), w2)
    ∧ quiet_upto is_log_event w1 w2.
Proof.
  intros Hk He Hlt.
  rewrite (authenticate_credentials_found env k r w Hk). unfold bind at 1.
  destruct (update_last_used_run env {| key := k; row := r |} w)
    as [(w1 & Hrun & Hq & _) | (now & w0 & Hrun & _ & _ & Hq & Hle & Hclk)].
  - destruct (is_expired_past {| key := k; row := r |} e w1) as (w2 & Hx & Hq2);
      [done | destruct Hq; lia |].
    exists {| key := k; row := r |}, w1, w2.
    split; [done|]. split; [|done].
    rewrite Hrun. unfold bind. by rewrite Hx.
  - set (token' := set_last_used now {| key := k; row := r |}) in *.
    destruct (is_expired_past token' e (snd (Token_save token' w0)))
      as (w2 & Hx & Hq2); [done | simpl; pose proof (next_now_ge w); lia |].
    exists token', (snd (Token_save token' w0)), w2.
    split; [done|]. split; [|done].
    rewrite Hrun. unfold bind. by rewrite Hx.
Qed.

(** ** Expired tokens *)

(** C5.  A token whose expiration instant is set and lies strictly before the
    instant of the call is refused with "Token expired", whatever its
    [write_enabled] flag and whether or not its user is active: the user's
    activity is looked at only after the expiration test. *)
Theorem expired_token_is_refused (env : Environment) (k : string)
    (r : TokenRow) (e : Instant) (w : World) :
  tokens w !! k = Some r →
  expires r = Some e →
  e < clock w →
  fst (authenticate_credentials env k w)
  = Raised (AuthenticationFailed "Token expired").
Proof.
  intros Hk He Hlt.
  destruct (expired_after_bookkeeping env k r e w Hk He Hlt)
    as (token' & w1 & w2 & _ & -> & _).
  reflexivity.
Qed.

(** The expired, read-only token of a deactivated user is refused as expired,
    not as belonging to an inactive user. *)
Lemma expired_token_is_refused_witness :
  write_enabled Scenario.expired_inactive_row = false
  ∧ is_active (user Scenario.expired_inactive_row) = false
  ∧ fst (authenticate_credentials Scenario.local_auth "abc123"
           (Scenario.one_token Scenario.expired_inactive_row 1000 []))
    = Raised (AuthenticationFailed "Token expired").
Proof.
  split; [reflexivity|]. split; [reflexivity|].
  apply (expired_token_is_refused Scenario.local_auth "abc123"
           Scenario.expired_inactive_row (seconds 999)).
  - reflexivity.
  - reflexivity.
  - by vm_compute.
Defined.

(** C1, as stated, fails in scenario C.  The token expired one second ago and
    was never used; maintenance mode is off.  The call fails with "Token
    expired", yet the row it leaves behind carries a [last_used] stamp where
    there was none: lines 26 to 34 run before line 37. *)
Lemma scenario_C_last_used_is_refreshed :
  tokens Scenario.expired_world !! "abc123"%string = Some Scenario.expired_row
  ∧ expires Scenario.expired_row = Some (seconds 999)
  ∧ seconds 999 < clock Scenario.expired_world
  ∧ fst (authenticate_credentials Scenario.local_auth "abc123"
           Scenario.expired_world)
    = Raised (AuthenticationFailed "Token expired")
  ∧ last_used <$> tokens Scenario.expired_world !! "abc123"%string
    = Some None
  ∧ last_used <$> tokens (after_call Scenario.local_auth "abc123"
                            Scenario.expired_world) !! "abc123"%string
    = Some (Some (seconds 1000))
  ∧ last_used <$> tokens (after_call Scenario.local_auth "abc123"
                            Scenario.expired_world) !! "abc123"%string
    ≠ last_used <$> tokens Scenario.expired_world !! "abc123"%string.
Proof.
  repeat split; try by vm_compute.
Qed.

(** C1, amended.  A token whose expiration instant lies strictly in the past
    is refused with "Token expired".  The failing call leaves the token table
    as it was when maintenance mode is on, and when [last_used] is set and at
    most 6 seconds old.  With maintenance mode off and [last_used] unset, or
    more than 60 seconds old, the call has stamped [last_used] with the
    current instant and saved the row before it fails. *)
Theorem bookkeeping_precedes_the_expiry_check (env : Environment)
    (k : string) (r : TokenRow) (e : Instant) (w : World) :
  tokens w !! k = Some r →
  expires r = Some e →
  e < clock w →
  fst (authenticate_credentials env k w)
  = Raised (AuthenticationFailed "Token expired")
  ∧ (MAINTENANCE_MODE env = true → tokens (after_call env k w) = tokens w)
  ∧ (∀ lu, last_used r = Some lu → next_now w - lu ≤ seconds 6 →
       tokens (after_call env k w) = tokens w)
  ∧ (MAINTENANCE_MODE env = false →
     (last_used r = None
      ∨ ∃ lu, last_used r = Some lu ∧ seconds 60 < next_now w - lu) →
     ∃ now, next_now w ≤ now ≤ clock (after_call env k w)
       ∧ tokens (after_call env k w)
         = <[k := {| user := user r; expires := expires r;
                     last_used := Some now;
                     write_enabled := write_enabled r |}]> (tokens w)).
Proof.
  intros Hk He Hlt.
  destruct (expired_after_bookkeeping env k r e w Hk He Hlt)
    as (token' & w1 & w2 & Hupd & Hrun & Hq).
  unfold after_call. rewrite Hrun. simpl.
  split; [done|].
  destruct (update_last_used_run env {| key := k; row := r |} w)
    as [(w1' & Hrun' & Hq' & Hwhy & _)
       | (now & w0 & Hrun' & Hstale & Hm & Hq' & Hle & Hclk)];
    rewrite Hupd in Hrun'; injection Hrun' as -> ->.
  - assert (tokens w2 = tokens w) as Hsame.
    { destruct Hq, Hq'. congruence. }
    split; [done|]. split; [done|].
    intros Hm Hold. exfalso.
    destruct Hwhy as [Hfresh|Hm']; [|congruence].
    unfold stale_in in Hfresh. simpl in Hfresh.
    destruct Hold as [Hnone | (lu & Hlu & Hgt)].
    + by rewrite Hnone in Hfresh.
    + rewrite Hlu in Hfresh. apply Z.ltb_ge in Hfresh.
      unfold seconds, MICROSECONDS_PER_SECOND in *. lia.
  - split; [congruence|]. split.
    + intros lu Hlu Hfresh. exfalso.
      unfold stale_in in Hstale. simpl in Hstale. rewrite Hlu in Hstale.
      apply Z.ltb_lt in Hstale.
      unfold seconds, MICROSECONDS_PER_SECOND in *. lia.
    + intros _ _. exists now. simpl in Hq.
      destruct Hq as [Ht _ Hc _], Hq' as [Ht' _ _ _]. simpl in *.
      split; [lia|]. by rewrite Ht, Ht'.
Qed.

(** Scenario C under the amended claim: the failure, and the stamp. *)
Lemma bookkeeping_precedes_the_expiry_check_witness :
  fst (authenticate_credentials Scenario.local_auth "abc123"
         Scenario.expired_world)
  = Raised (AuthenticationFailed "Token expired")
  ∧ ∃ now,
      next_now Scenario.expired_world ≤ now
      ∧ last_used <$> tokens (after_call Scenario.local_auth "abc123"
                                Scenario.expired_world) !! "abc123"%string
        = Some (Some now).
Proof.
  destruct (bookkeeping_precedes_the_expiry_check Scenario.local_auth
              "abc123" Scenario.expired_row (seconds 999) Scenario.expired_world)
    as (Hfail & _ & _ & Hstamp).
  - reflexivity.
  - reflexivity.
  - by vm_compute.
  - split; [exact Hfail|].
    destruct Hstamp as (now & [Hle _] & Htokens).
    + reflexivity.
    + by left.
    + exists now. split; [exact Hle|].
      rewrite Htokens. by rewrite lookup_insert_eq.
Defined.

(** ** Maintenance mode *)

Lemma saves_ignore_noise (ev : Event) :
  is_log_or_ldap_event ev = true → is_save_event ev = false.
Proof. by destruct ev. Qed.

Lemma saves_of_ignore_noise (k : string) (ev : Event) :
  is_log_or_ldap_event ev = true → is_save_of k ev = false.
Proof. by destruct ev. Qed.

(** ** The throttle on [last_used] *)

Lemma after_call_clock (env : Environment) (k : string) (w : World) :
  clock w ≤ clock (after_call env k w).
Proof.
  destruct (tokens w !! k) as [r|] eqn:Hk;
    [|by rewrite (after_call_missing env k w Hk)].
  destruct (after_call_found env k r w Hk) as (token' & w1 & Hupd & [_ _ Hc _]).
  destruct (update_last_used_run env {| key := k; row := r |} w)
    as [(w1' & Hrun & [_ _ Hc' _] & _) | (now & w0 & Hrun & _ & _ & [_ _ Hc' _] & _)];
    rewrite Hupd in Hrun; injection Hrun as _ ->; simpl in *; lia.
Qed.

Lemma serve_clock (calls : list (Environment * string)) (w : World) :
  clock w ≤ clock (serve calls w).
Proof.
  revert w. induction calls as [|[env k] calls IH]; intros w; simpl; [lia|].
  pose proof (after_call_clock env k w). pose proof (IH (after_call env k w)).
  lia.
Qed.

(** One call, presented with any key, leaves alone a row whose [last_used]
    is at most 6 seconds behind the clock when the call is over. *)
Lemma after_call_keeps_fresh (env : Environment) (k0 k : string)
    (r : TokenRow) (t : Instant) (w : World) :
  tokens w !! k0 = Some r →
  last_used r = Some t →
  clock (after_call env k w) - t ≤ seconds 6 →
  tokens (after_call env k w) !! k0 = Some r
  ∧ saves_of k0 (after_call env k w) = saves_of k0 w.
Proof.
  intros Hk0 Hlu Hfresh.
  destruct (tokens w !! k) as [r'|] eqn:Hk;
    [|by rewrite (after_call_missing env k w Hk)].
  destruct (after_call_found env k r' w Hk) as (token' & w1 & Hupd & Hq).
  pose proof (quiet_filter _ (is_save_of k0) _ _ (saves_of_ignore_noise k0) Hq)
    as Hsaves.
  destruct Hq as [Ht _ Hc _].
  destruct (update_last_used_run env {| key := k; row := r' |} w)
    as [(w1' & Hrun & Hq' & _) | (now & w0 & Hrun & Hstale & _ & Hq' & Hle & Hclk)];
    rewrite Hupd in Hrun; injection Hrun as -> ->.
  - apply (quiet_weaken _ _ _ _ log_is_log_or_ldap) in Hq'.
    pose proof (quiet_filter _ (is_save_of k0) _ _ (saves_of_ignore_noise k0) Hq')
      as Hsaves'.
    destruct Hq' as [Ht' _ _ _].
    unfold saves_of. split; congruence.
  - apply (quiet_weaken _ _ _ _ log_is_log_or_ldap) in Hq'.
    pose proof (quiet_filter _ (is_save_of k0) _ _ (saves_of_ignore_noise k0) Hq')
      as Hsaves'.
    destruct Hq' as [Ht' _ _ _]. simpl in *.
    destruct (decide (k = k0)) as [->|Hne].
    + exfalso. assert (r' = r) as -> by congruence.
      unfold stale_in in Hstale. simpl in Hstale. rewrite Hlu in Hstale.
      apply Z.ltb_lt in Hstale.
      unfold seconds, MICROSECONDS_PER_SECOND in *. lia.
    + split.
      * rewrite Ht, lookup_insert_ne by done. by rewrite Ht'.
      * unfold saves_of. rewrite Hsaves. simpl.
        apply String.eqb_neq in Hne. by rewrite Hne.
Qed.

(** Calls served one after the other, with whatever keys: a token whose
    [last_used] is [t] keeps its row, and is never saved, for as long as the
    clock shows no more than [t] plus 6 seconds. *)
Lemma fresh_row_survives_run (calls : list (Environment * string))
    (k : string) (r : TokenRow) (t : Instant) (w : World) :
  tokens w !! k = Some r →
  last_used r = Some t →
  clock (serve calls w) - t ≤ seconds 6 →
  tokens (serve calls w) !! k = Some r
  ∧ saves_of k (serve calls w) = saves_of k w.
Proof.
  revert w. induction calls as [|[env k'] calls IH]; intros w Hk Hlu Hfresh;
    simpl in *; [done|].
  pose proof (serve_clock calls (after_call env k' w)) as Hmono.
  destruct (after_call_keeps_fresh env k k' r t w Hk Hlu) as [Hk' Hs'];
    [lia|].
  destruct (IH (after_call env k' w) Hk' Hlu Hfresh) as [Hk2 Hs2].
  split; [done|congruence].
Qed.

(** A call on a token whose [last_used] is at most 6 seconds behind the
    instant the call reads on line 26 writes nothing. *)
Lemma fresh_call_writes_nothing (env : Environment) (k : string)
    (r : TokenRow) (t : Instant) (w : World) :
  tokens w !! k = Some r →
  last_used r = Some t →
  next_now w - t ≤ seconds 6 →
  tokens (after_call env k w) = tokens w
  ∧ saves_of k (after_call env k w) = saves_of k w.
Proof.
  intros Hk Hlu Hfresh.
  destruct (after_call_found env k r w Hk) as (token' & w1 & Hupd & Hq).
  destruct (update_last_used_run env {| key := k; row := r |} w)
    as [(w1' & Hrun & Hq' & _) | (now & w0 & _ & Hstale & _)].
  - rewrite Hupd in Hrun. injection Hrun as -> ->.
    apply (quiet_weaken _ _ _ _ log_is_log_or_ldap) in Hq'.
    pose proof (quiet_trans _ _ _ _ Hq' Hq) as Hall.
    split; [by destruct Hall|].
    apply (quiet_filter _ _ _ _ (saves_of_ignore_noise k) Hall).
  - exfalso. unfold stale_in in Hstale. simpl in Hstale.
    rewrite Hlu in Hstale. apply Z.ltb_lt in Hstale.
    unfold seconds, MICROSECONDS_PER_SECOND in *. lia.
Qed.

(** C8.  Let the [last_used] of a token be [t].  Serve any calls one after
    the other, then one more for that token which reads the clock, on line
    26, at an instant no more than 6 seconds after [t]: the row is still the
    same after it and [token.save()] has not been called on it, by that call
    or by any call before it. *)
Theorem last_used_is_kept_for_six_seconds
    (calls : list (Environment * string)) (env : Environment) (k : string)
    (r : TokenRow) (t : Instant) (w : World) :
  tokens w !! k = Some r →
  last_used r = Some t →
  next_now (serve calls w) - t ≤ seconds 6 →
  tokens (serve calls w) !! k = Some r
  ∧ tokens (after_call env k (serve calls w)) !! k = Some r
  ∧ saves_of k (after_call env k (serve calls w)) = saves_of k w.
Proof.
  intros Hk Hlu Hfresh.
  pose proof (next_now_ge (serve calls w)) as Hge.
  destruct (fresh_row_survives_run calls k r t w Hk Hlu) as [Hk' Hs']; [lia|].
  destruct (fresh_call_writes_nothing env k r t (serve calls w) Hk' Hlu Hfresh)
    as [Ht Hs].
  split; [done|]. split; congruence.
Qed.

(** A token last used at 1000 s.  Two seconds later it is presented again,
    then an unknown key is, and three seconds after that the token once
    more: five seconds in all, and the row has not moved. *)
Lemma last_used_is_kept_for_six_seconds_witness :
  next_now (serve [(Scenario.local_auth, "abc123"%string);
                   (Scenario.local_auth, "zzz"%string)]
              (Scenario.one_token Scenario.used_row 1000
                 [2000000; 3000000]%N))
  = seconds 1005
  ∧ tokens (after_call Scenario.local_auth "abc123"
              (serve [(Scenario.local_auth, "abc123"%string);
                      (Scenario.local_auth, "zzz"%string)]
                 (Scenario.one_token Scenario.used_row 1000
                    [2000000; 3000000]%N))) !! "abc123"%string
    = Some Scenario.used_row
  ∧ saves_of "abc123"
      (after_call Scenario.local_auth "abc123"
         (serve [(Scenario.local_auth, "abc123"%string);
                 (Scenario.local_auth, "zzz"%string)]
            (Scenario.one_token Scenario.used_row 1000
               [2000000; 3000000]%N)))
    = [].
Proof.
  split; [by vm_compute|].
  apply (last_used_is_kept_for_six_seconds
           [(Scenario.local_auth, "abc123"%string);
            (Scenario.local_auth, "zzz"%string)]
           Scenario.local_auth "abc123" Scenario.used_row (seconds 1000)
           (Scenario.one_token Scenario.used_row 1000 [2000000; 3000000]%N)).
  - reflexivity.
  - reflexivity.
  - by vm_compute.
Defined.

(** ** The threshold against the comment above it *)

(** C2 does not hold of the code.  The comment on line 25 promises one update
    a minute, the test on line 26 compares with 6 seconds.  A never-used
    token is presented at 1000 s and again 7 seconds later: both calls
    succeed, and both save the row, with stamps 7 seconds apart. *)
Theorem last_used_is_saved_twice_within_a_minute :
  let w := Scenario.one_token Scenario.fresh_row 1000 [0; 7000000]%N in
  let w1 := after_call Scenario.local_auth "abc123" w in
  let w2 := after_call Scenario.local_auth "abc123" w1 in
  last_used <$> tokens w1 !! "abc123"%string = Some (Some (seconds 1000))
  ∧ last_used <$> tokens w2 !! "abc123"%string = Some (Some (seconds 1007))
  ∧ saves w2
    = [EvTokenSave (set_last_used (seconds 1007)
                      {| key := "abc123"; row := Scenario.fresh_row |});
       EvTokenSave (set_last_used (seconds 1000)
                      {| key := "abc123"; row := Scenario.fresh_row |})]
  ∧ seconds 1007 - seconds 1000 < seconds 60.
Proof.
  repeat split; by vm_compute.
Qed.

(** ** The write gate of [TokenPermissions] *)

Lemma str_in_elem_of (x : string) (t : list string) :
  str_in x t = true ↔ x ∈ t.
Proof.
  unfold str_in. rewrite existsb_exists. split.
  - intros (y & Hin & Heq). apply String.eqb_eq in Heq as ->.
    by apply list_elem_of_In.
  - intros Hin. exists x. split; [by apply list_elem_of_In|].
    apply String.eqb_refl.
Qed.

(** C3, as stated, fails on scenario A.  The method is POST, which is not
    safe, and the token's [write_enabled] is [False]: the test on line 84
    fails, the method falls off its end and the caller receives [None], not
    the boolean [False] that is the value of the flag. *)
Lemma post_with_read_only_token_returns_None :
  method Scenario.post_with_read_only_token = "POST"%string
  ∧ auth Scenario.post_with_read_only_token
    = TokenCredential Scenario.read_only_token
  ∧ str_in "POST" SAFE_METHODS = false
  ∧ write_enabled Scenario.read_only_token = false
  ∧ fst (TokenPermissions._verify_write_permission
           Scenario.post_with_read_only_token
           (Scenario.one_token Scenario.fresh_row 1000 []))
    = Returned PyNone
  ∧ fst (TokenPermissions._verify_write_permission
           Scenario.post_with_read_only_token
           (Scenario.one_token Scenario.fresh_row 1000 []))
    ≠ Returned (PyBool (write_enabled Scenario.read_only_token)).
Proof.
  repeat split; done.
Qed.

(** C3, amended.  On a request authenticated with a token,
    [_verify_write_permission] raises nothing and changes nothing.  For a safe method (GET, HEAD,
    OPTIONS) it returns [True] whatever the token's [write_enabled] flag.
    For any other method (POST, PUT, PATCH, DELETE among them) the truth
    value of what it returns is the flag: [True] when the flag is set, and
    the [None] of a function that falls off its end, which is false, when it
    is not. *)
Theorem verify_write_permission_follows_write_enabled (token : Token)
    (m : string) (u : RequestUser) (w : World) :
  let request :=
    {| method := m; auth := TokenCredential token; request_user := u |} in
  (m ∈ SAFE_METHODS →
   TokenPermissions._verify_write_permission request w
   = (Returned (PyBool true), w))
  ∧ (m ∉ SAFE_METHODS →
     ∃ result,
       TokenPermissions._verify_write_permission request w
       = (Returned result, w)
       ∧ truth result = write_enabled token
       ∧ result = if write_enabled token then PyBool true else PyNone).
Proof.
  intros request. subst request.
  unfold TokenPermissions._verify_write_permission, bind. cbn [method auth].
  split; intros Hm.
  - apply str_in_elem_of in Hm. by rewrite Hm.
  - destruct (str_in m SAFE_METHODS) eqn:Hin.
    { exfalso. by apply Hm, str_in_elem_of. }
    cbn. destruct (write_enabled token); by eexists.
Qed.

(** GET and POST with the read-only token of scenario A. *)
Lemma verify_write_permission_follows_write_enabled_witness :
  fst (TokenPermissions._verify_write_permission
         {| method := "GET"; auth := TokenCredential Scenario.read_only_token;
            request_user := AnonymousUser |}
         (Scenario.one_token Scenario.fresh_row 1000 []))
  = Returned (PyBool true)
  ∧ ∃ result,
      fst (TokenPermissions._verify_write_permission
             {| method := "POST";
                auth := TokenCredential Scenario.read_only_token;
                request_user := AnonymousUser |}
             (Scenario.one_token Scenario.fresh_row 1000 []))
      = Returned result
      ∧ truth result = false.
Proof.
  split.
  - destruct (verify_write_permission_follows_write_enabled
                Scenario.read_only_token "GET" AnonymousUser
                (Scenario.one_token Scenario.fresh_row 1000 []))
      as [Hsafe _].
    rewrite Hsafe; [reflexivity|].
    by apply str_in_elem_of.
  - destruct (verify_write_permission_follows_write_enabled
                Scenario.read_only_token "POST" AnonymousUser
                (Scenario.one_token Scenario.fresh_row 1000 []))
      as [_ Hunsafe].
    destruct Hunsafe as (result & Hrun & Htruth & _).
    + intros Hin. by apply str_in_elem_of in Hin.
    + exists result. by rewrite Hrun.
Defined.

Section Gate.

Context {View Obj : Type} {base : DjangoObjectPermissions View Obj}.

(** C4.  When the credential is a token and [_verify_write_permission]
    answers false on the request, [has_permission] and
    [has_object_permission] both return [False] and hand back the world
    untouched, whatever the base class would do: nothing of
    [super().has_permission] or [super().has_object_permission] has run,
    and the trace shows no call through [super()]. *)
Theorem read_only_token_is_denied_without_super (request : Request)
    (token : Token) (verdict : PyValue) (view : View) (obj : Obj)
    (w : World) :
  auth request = TokenCredential token →
  fst (TokenPermissions._verify_write_permission request w)
  = Returned verdict →
  truth verdict = false →
  TokenPermissions.has_permission request view w = (Returned false, w)
  ∧ TokenPermissions.has_object_permission request view obj w
    = (Returned false, w)
  ∧ super_calls
      (snd (TokenPermissions.has_permission request view w))
    = super_calls w
  ∧ super_calls
      (snd (TokenPermissions.has_object_permission request view obj w))
    = super_calls w.
Proof.
  intros Hauth Hrun Hfalse.
  assert (TokenPermissions.token_forbids_write request w = (Returned true, w))
    as Hforbid.
  { unfold TokenPermissions.token_forbids_write. rewrite Hauth. simpl.
    revert Hrun.
    unfold TokenPermissions._verify_write_permission, bind.
    rewrite Hauth.
    destruct (str_in (method request) SAFE_METHODS); simpl.
    - intros [= <-]. discriminate.
    - destruct (write_enabled token); simpl; intros [= <-]; done. }
  unfold TokenPermissions.has_permission,
    TokenPermissions.has_object_permission, bind.
  by rewrite Hforbid.
Qed.

(** C9.  When the credential is not a token, [has_permission] and
    [has_object_permission] are the call through [super()], for every
    method: its result, its exception if it raises, and what it does to
    the world. *)
Theorem other_credentials_go_to_super (request : Request) (view : View)
    (obj : Obj) (w : World) :
  isinstance_Token (auth request) = false →
  TokenPermissions.has_permission request view w
  = super_has_permission request view (snd (record EvSuperHasPermission w))
  ∧ TokenPermissions.has_object_permission request view obj w
    = super_has_object_permission request view obj
        (snd (record EvSuperHasObjectPermission w)).
Proof.
  intros Hauth.
  unfold TokenPermissions.has_permission,
    TokenPermissions.has_object_permission,
    TokenPermissions.token_forbids_write, bind.
  by rewrite Hauth.
Qed.

End Gate.

(** Scenario A.  The base class of the scenario would grant the request and
    move the clock; the answer is [False] and the clock has not moved. *)
Lemma read_only_token_is_denied_without_super_witness :
  TokenPermissions.has_permission (base := Scenario.permissive)
    Scenario.post_with_read_only_token tt
    (Scenario.one_token Scenario.fresh_row 1000 [])
  = (Returned false, Scenario.one_token Scenario.fresh_row 1000 [])
  ∧ fst (@super_has_permission _ _ Scenario.permissive
           Scenario.post_with_read_only_token tt
           (Scenario.one_token Scenario.fresh_row 1000 []))
    = Returned true.
Proof.
  split; [|reflexivity].
  apply (read_only_token_is_denied_without_super (base := Scenario.permissive)
           Scenario.post_with_read_only_token Scenario.read_only_token
           PyNone tt tt).
  - reflexivity.
  - reflexivity.
  - reflexivity.
Defined.

(** A POST from a browser session is answered by the base class. *)
Lemma other_credentials_go_to_super_witness :
  fst (TokenPermissions.has_permission (base := Scenario.permissive)
         Scenario.post_with_session tt
         (Scenario.one_token Scenario.fresh_row 1000 []))
  = Returned true
  ∧ super_calls
      (snd (TokenPermissions.has_permission (base := Scenario.permissive)
              Scenario.post_with_session tt
              (Scenario.one_token Scenario.fresh_row 1000 [])))
    = [EvSuperHasPermission].
Proof.
  destruct (other_credentials_go_to_super (base := Scenario.permissive)
              Scenario.post_with_session tt tt
              (Scenario.one_token Scenario.fresh_row 1000 []))
    as [Hcollection _].
  - reflexivity.
  - rewrite Hcollection. split; reflexivity.
Defined.

(** ** Anonymous access *)

(** C7.  [IsAuthenticatedOrLoginNotRequired.has_permission] answers [True]
    to every request when [LOGIN_REQUIRED] is off, and answers the request's
    [is_authenticated] when it is on.  It raises nothing, leaves the world as
    it was, and its answer depends on those two values only. *)
Theorem anonymous_access_policy {View : Type} (env : Environment)
    (request : Request) (view : View) (w : World) :
  (LOGIN_REQUIRED env = false →
   IsAuthenticatedOrLoginNotRequired.has_permission env request view w
   = (Returned true, w))
  ∧ (LOGIN_REQUIRED env = true →
     IsAuthenticatedOrLoginNotRequired.has_permission env request view w
     = (Returned (is_authenticated (request_user request)), w))
  ∧ (∀ (env' : Environment) (request' : Request) (view' : View) (w' : World),
       LOGIN_REQUIRED env' = LOGIN_REQUIRED env →
       is_authenticated (request_user request')
       = is_authenticated (request_user request) →
       fst (IsAuthenticatedOrLoginNotRequired.has_permission
              env' request' view' w')
       = fst (IsAuthenticatedOrLoginNotRequired.has_permission
                env request view w)).
Proof.
  unfold IsAuthenticatedOrLoginNotRequired.has_permission, ret.
  split; [by intros ->|]. split; [by intros ->|].
  intros env' request' view' w' -> ->.
  by destruct (LOGIN_REQUIRED env).
Qed.

(** Scenario D: login is required and nobody is logged in. *)
Lemma anonymous_access_policy_witness :
  IsAuthenticatedOrLoginNotRequired.has_permission Scenario.local_auth
    Scenario.anonymous_get tt (Scenario.one_token Scenario.fresh_row 1000 [])
  = (Returned false, Scenario.one_token Scenario.fresh_row 1000 []).
Proof.
  destruct (anonymous_access_policy Scenario.local_auth Scenario.anonymous_get
              tt (Scenario.one_token Scenario.fresh_row 1000 []))
    as (_ & Hrequired & _).
  apply Hrequired. reflexivity.
Defined.

(** ** The LDAP override *)

Lemma ldap_ignores_logs (ev : Event) :
  is_log_event ev = true → is_ldap_event ev = false.
Proof. by destruct ev. Qed.

(** What the bookkeeping hands to the rest of the method: the same token but
    for [last_used], filed in the table as it stands, and no word to the
    directory. *)
Lemma update_last_used_hands_over (env : Environment) (k : string)
    (r : TokenRow) (w : World) (token' : Token) (w1 : World) :
  tokens w !! k = Some r →
  update_last_used env {| key := k; row := r |} w = (Returned token', w1) →
  key token' = k
  ∧ user token' = user r
  ∧ expires token' = expires r
  ∧ write_enabled token' = write_enabled r
  ∧ tokens w1 !! k = Some (row token')
  ∧ directory w1 = directory w
  ∧ clock w ≤ clock w1
  ∧ ldap_contacts w1 = ldap_contacts w.
Proof.
  intros Hk Hupd.
  destruct (update_last_used_run env {| key := k; row := r |} w)
    as [(w1' & Hrun & Hq & _) | (now & w0 & Hrun & _ & _ & Hq & Hle & Hclk)];
    rewrite Hupd in Hrun; injection Hrun as -> ->;
    pose proof (quiet_filter _ is_ldap_event _ _ ldap_ignores_logs Hq) as Hldap;
    destruct Hq as [Ht Hd Hc _]; simpl.
  - repeat split; try done. by rewrite Ht.
  - pose proof (next_now_ge w).
    repeat split; try done; try lia.
    by rewrite lookup_insert_eq.
Qed.

Lemma resolve_user_ldap_match (env : Environment) (token : Token)
    (ldap_user : User) (w : World) :
  REMOTE_AUTH_BACKEND env = "netbox.authentication.LDAPBackend"%string →
  FIND_GROUP_PERMS env = true →
  directory w !! username (user token) = Some ldap_user →
  ∃ w', resolve_user env token w = (Returned (ldap_user, token), w')
        ∧ tokens w' = tokens w
        ∧ trace w'
          = EvLdapPopulateUser (username (user token)) :: EvLdapBackend
            :: trace w.
Proof.
  intros Hbackend Hfind Hdir. unfold resolve_user.
  rewrite Hbackend, String.eqb_refl, Hfind.
  unfold bind, LDAPBackend_init, populate_user. simpl. rewrite Hdir.
  by eexists.
Qed.

(** When [token.is_expired] answers true, the expiration instant is set and
    lies before the instant the clock then shows. *)
Lemma is_expired_true_clock (token : Token) (w : World) :
  fst (is_expired token w) = Returned true →
  ∃ e, expires token = Some e ∧ e < clock (snd (is_expired token w)).
Proof.
  unfold is_expired. destruct (expires token) as [e|]; [|discriminate].
  unfold bind. simpl. intros [= Hlt]. exists e. split; [done|].
  by apply Z.ltb_lt.
Qed.

(** A call for an active user's token that is still short of its expiration
    instant when the call is over gets through both checks, to the last part
    of the method. *)
Lemma authenticate_credentials_passes (env : Environment) (k : string)
    (r : TokenRow) (w : World) :
  tokens w !! k = Some r →
  is_active (user r) = true →
  (∀ e, expires r = Some e → clock (after_call env k w) < e) →
  ∃ token' w1 w2,
    update_last_used env {| key := k; row := r |} w = (Returned token', w1)
    ∧ quiet_upto is_log_event w1 w2
    ∧ authenticate_credentials env k w = resolve_user env token' w2.
Proof.
  intros Hk Hactive.
  destruct (after_call_found env k r w Hk) as (token' & w1 & Hupd & _).
  destruct (update_last_used_hands_over env k r w token' w1 Hk Hupd)
    as (_ & Huser & Hexp & _).
  unfold after_call.
  rewrite (authenticate_credentials_found env k r w Hk). unfold bind at 1 3.
  rewrite Hupd. unfold bind at 1 2.
  destruct (is_expired_run token' w1) as (w2 & Hrun & Hq).
  pose proof (is_expired_true_clock token' w1) as Hclock.
  rewrite Hrun in Hclock |- *. simpl in Hclock.
  destruct (match expires token' with Some e => e <? next_now w1 | None => false end).
  - intros Hnot. exfalso.
    destruct Hclock as (e & He & Hlt); [done|].
    rewrite Hexp in He. specialize (Hnot e He). simpl in Hnot. lia.
  - intros _. rewrite Huser, Hactive. simpl.
    by exists token', w1, w2.
Qed.

(** C10.  Let the presented key resolve to a row.
    - If the row's expiration instant lies strictly in the past, the call
      fails with "Token expired" and the directory has not been reached.
    - If the row's user is inactive, the call fails and the directory has not
      been reached.
    - If the user is active and the token is short of its expiration instant,
      the LDAP backend is configured with [FIND_GROUP_PERMS] and the
      directory knows the user's name, then the call reaches the directory
      once and returns the directory's account together with the token that
      was looked up, as the bookkeeping of [last_used] left it and as the
      table now holds it: same key, same local user, same expiration, same
      [write_enabled]. *)
Theorem ldap_override_comes_after_the_checks (env : Environment) (k : string)
    (r : TokenRow) (w : World) :
  tokens w !! k = Some r →
  (∀ e, expires r = Some e → e < clock w →
     fst (authenticate_credentials env k w)
     = Raised (AuthenticationFailed "Token expired")
     ∧ ldap_contacts (after_call env k w) = ldap_contacts w)
  ∧ (is_active (user r) = false →
     (∃ detail, fst (authenticate_credentials env k w)
                = Raised (AuthenticationFailed detail))
     ∧ ldap_contacts (after_call env k w) = ldap_contacts w)
  ∧ (is_active (user r) = true →
     (∀ e, expires r = Some e → clock (after_call env k w) < e) →
     REMOTE_AUTH_BACKEND env = "netbox.authentication.LDAPBackend"%string →
     FIND_GROUP_PERMS env = true →
     ∀ ldap_user,
       directory w !! username (user r) = Some ldap_user →
       ∃ token',
         fst (authenticate_credentials env k w) = Returned (ldap_user, token')
         ∧ fst (update_last_used env {| key := k; row := r |} w)
           = Returned token'
         ∧ key token' = k
         ∧ user token' = user r
         ∧ expires token' = expires r
         ∧ write_enabled token' = write_enabled r
         ∧ tokens (after_call env k w) !! k = Some (row token')
         ∧ ldap_contacts (after_call env k w)
           = EvLdapPopulateUser (username (user r)) :: EvLdapBackend
             :: ldap_contacts w).
Proof.
  intros Hk. split; [|split].
  - intros e He Hlt.
    destruct (expired_after_bookkeeping env k r e w Hk He Hlt)
      as (token' & w1 & w2 & Hupd & Hrun & Hq).
    unfold after_call. rewrite Hrun. split; [done|]. simpl.
    destruct (update_last_used_hands_over env k r w token' w1 Hk Hupd)
      as (_ & _ & _ & _ & _ & _ & _ & Hldap).
    rewrite <- Hldap.
    apply (quiet_filter _ is_ldap_event _ _ ldap_ignores_logs Hq).
  - intros Hinactive.
    destruct (after_call_found env k r w Hk) as (token' & w1 & Hupd & _).
    destruct (update_last_used_hands_over env k r w token' w1 Hk Hupd)
      as (_ & Huser & _ & _ & _ & _ & _ & Hldap).
    unfold after_call.
    rewrite (authenticate_credentials_found env k r w Hk). unfold bind at 1 3.
    rewrite Hupd. unfold bind at 1 2.
    destruct (is_expired_run token' w1) as (w2 & -> & Hq).
    pose proof (quiet_filter _ is_ldap_event _ _ ldap_ignores_logs Hq) as Hq'.
    rewrite Huser, Hinactive. fold (ldap_contacts w2) in Hq'.
    destruct (match expires token' with Some e => e <? next_now w1 | None => false end);
      simpl; (split; [by eexists|]); unfold ldap_contacts in *; congruence.
  - intros Hactive Hvalid Hbackend Hfind ldap_user Hmatch.
    destruct (authenticate_credentials_passes env k r w Hk Hactive Hvalid)
      as (token' & w1 & w2 & Hupd & Hq & Hrun).
    destruct (update_last_used_hands_over env k r w token' w1 Hk Hupd)
      as (Hkey & Huser & Hexp & Hwe & Hrow & Hdir & _ & Hldap).
    pose proof (quiet_filter _ is_ldap_event _ _ ldap_ignores_logs Hq) as Hldap2.
    destruct Hq as [Ht2 Hd2 _ _].
    destruct (resolve_user_ldap_match env token' ldap_user w2 Hbackend Hfind)
      as (w3 & Hres & Ht3 & Htrace).
    { by rewrite Hd2, Hdir, Huser. }
    exists token'. unfold after_call. rewrite Hrun, Hres, Hupd. simpl.
    repeat (split; [done|]).
    split; [by rewrite Ht3, Ht2|].
    unfold ldap_contacts in *. rewrite Htrace. simpl.
    by rewrite Hldap2, Hldap, Huser.
Qed.

(** The LDAP backend with [FIND_GROUP_PERMS].  A never-used, valid token of
    alice comes back with the directory's account, itself stamped by the
    bookkeeping and still pointing at the local account; an expired token
    never gets as far as the directory. *)
Lemma ldap_override_comes_after_the_checks_witness :
  (∃ token',
     fst (authenticate_credentials Scenario.ldap_auth "abc123"
            (Scenario.one_token Scenario.fresh_row 1000 []))
     = Returned (Scenario.alice_ldap, token')
     ∧ user token' = Scenario.alice
     ∧ tokens (after_call Scenario.ldap_auth "abc123"
                 (Scenario.one_token Scenario.fresh_row 1000 []))
         !! "abc123"%string
       = Some (row token'))
  ∧ ldap_contacts (after_call Scenario.ldap_auth "abc123"
                     Scenario.expired_world)
    = [].
Proof.
  split.
  - destruct (ldap_override_comes_after_the_checks Scenario.ldap_auth "abc123"
                Scenario.fresh_row
                (Scenario.one_token Scenario.fresh_row 1000 []) eq_refl)
      as (_ & _ & Hok).
    destruct (Hok eq_refl) with (ldap_user := Scenario.alice_ldap)
      as (token' & Hrun & _ & _ & Huser & _ & _ & Hrow & _).
    + intros e. discriminate.
    + reflexivity.
    + reflexivity.
    + reflexivity.
    + exists token'. by repeat split.
  - destruct (ldap_override_comes_after_the_checks Scenario.ldap_auth "abc123"
                Scenario.expired_row Scenario.expired_world eq_refl)
      as (Hexpired & _ & _).
    destruct (Hexpired (seconds 999) eq_refl) as [_ Hquiet].
    + by vm_compute.
    + exact Hquiet.
Defined.

(** * Further properties *)

(** ** The anatomy of one call *)

Lemma authenticate_credentials_split (env : Environment) (k : string)
    (r : TokenRow) (w : World) :
  tokens w !! k = Some r →
  authenticate_credentials env k w
  = (do token <- update_last_used env {| key := k; row := r |};
     enforce_and_resolve env token) w.
Proof. apply authenticate_credentials_found. Qed.

(** What the override does, case by case. *)
Lemma resolve_user_anatomy (env : Environment) (token : Token) (w : World) :
  ∃ u evs w',
    resolve_user env token w = (Returned (u, token), w')
    ∧ tokens w' = tokens w
    ∧ directory w' = directory w
    ∧ clock w' = clock w
    ∧ trace w' = evs ++ trace w
    ∧ ((REMOTE_AUTH_BACKEND env ≠ LDAP_BACKEND
        ∧ evs = [] ∧ u = user token)
       ∨ (REMOTE_AUTH_BACKEND env = LDAP_BACKEND
          ∧ FIND_GROUP_PERMS env = false
          ∧ evs = [EvLdapBackend] ∧ u = user token)
       ∨ (REMOTE_AUTH_BACKEND env = LDAP_BACKEND
          ∧ FIND_GROUP_PERMS env = true
          ∧ evs = [EvLdapPopulateUser (username (user token)); EvLdapBackend]
          ∧ u = default (user token)
                  (directory w !! username (user token)))).
Proof.
  unfold resolve_user, LDAP_BACKEND.
  destruct (String.eqb_spec (REMOTE_AUTH_BACKEND env)
              "netbox.authentication.LDAPBackend") as [Hb|Hb].
  - unfold bind, LDAPBackend_init, populate_user, record, ret. simpl.
    destruct (FIND_GROUP_PERMS env) eqn:Hfind.
    + simpl.
      destruct (directory w !! username (user token)) as [ldap_user|] eqn:Hdir;
        eexists _, [EvLdapPopulateUser (username (user token)); EvLdapBackend], _;
        (split; [reflexivity|]); simpl;
        repeat (split; [reflexivity|]); right; right; done.
    + eexists _, [EvLdapBackend], _; (split; [reflexivity|]); simpl.
      repeat (split; [reflexivity|]). right; left. done.
  - exists (user token), [], w. repeat (split; [reflexivity|]). by left.
Qed.

(** What follows the bookkeeping, case by case: the token is refused as
    expired, or refused for its inactive user, or handed to the override. *)
Lemma enforce_and_resolve_anatomy (env : Environment) (token : Token)
    (w1 : World) :
  ∃ out evs w3,
    enforce_and_resolve env token w1 = (out, w3)
    ∧ tokens w3 = tokens w1
    ∧ directory w3 = directory w1
    ∧ clock w1 ≤ clock w3
    ∧ trace w3 = evs ++ trace w1
    ∧ ((out = Raised (AuthenticationFailed "Token expired")
        ∧ evs = []
        ∧ ∃ e, expires token = Some e ∧ e < clock w3)
       ∨ (out = Raised (AuthenticationFailed "User inactive")
          ∧ evs = []
          ∧ is_active (user token) = false
          ∧ ∀ e, expires token = Some e → clock w3 ≤ e)
       ∨ (is_active (user token) = true
          ∧ (∀ e, expires token = Some e → clock w3 ≤ e)
          ∧ ∃ w2, (out, w3) = resolve_user env token w2
                  ∧ directory w2 = directory w1
                  ∧ trace w2 = trace w1)).
Proof.
  unfold enforce_and_resolve, bind at 1.
  destruct (is_expired token w1) as [[[|]|exn] w2] eqn:Hx.
  - (* expired *)
    destruct (is_expired_true_clock token w1) as (e & He & Hlt);
      [by rewrite Hx|]. rewrite Hx in Hlt. simpl in Hlt.
    destruct (is_expired_run token w1) as (w2' & Hrun & [Ht Hd Hc _]).
    rewrite Hx in Hrun. injection Hrun as _ <-.
    exists (Raised (AuthenticationFailed "Token expired")), [], w2.
    split; [reflexivity|]. repeat (split; [done|]).
    split; [|left; eauto].
    revert Hx. unfold is_expired. rewrite He. unfold bind. simpl.
    by intros [= _ <-].
  - (* not expired *)
    assert (tokens w2 = tokens w1 ∧ directory w2 = directory w1
            ∧ clock w1 ≤ clock w2 ∧ trace w2 = trace w1
            ∧ ∀ e, expires token = Some e → clock w2 ≤ e)
      as (Ht & Hd & Hc & Htr & Hvalid).
    { revert Hx. unfold is_expired.
      destruct (expires token) as [e|].
      - unfold bind. simpl. intros [= Hge <-]. simpl.
        repeat (split; [reflexivity || apply next_now_ge|]).
        intros e' [= <-]. by apply Z.ltb_ge.
      - intros [= <-]. repeat (split; [reflexivity|]). discriminate. }
    destruct (is_active (user token)) eqn:Hactive; simpl.
    + destruct (resolve_user_anatomy env token w2)
        as (u & evs & w3 & Hres & Ht3 & Hd3 & Hc3 & Htr3 & _).
      rewrite Hres. exists (Returned (u, token)), evs, w3.
      split; [reflexivity|].
      split; [congruence|]. split; [congruence|]. split; [lia|].
      split; [congruence|].
      right; right. split; [done|]. split.
      * intros e He. rewrite Hc3. by apply Hvalid.
      * by exists w2.
    + exists (Raised (AuthenticationFailed "User inactive")), [], w2.
      split; [reflexivity|]. repeat (split; [done|]).
      right; left. done.
  - (* [is_expired] does not raise *)
    destruct (is_expired_run token w1) as (w2' & Hrun & _). congruence.
Qed.

(** What the bookkeeping does, case by case: nothing when the stamp is
    fresh, a warning under maintenance mode, a stamp and a save otherwise. *)
Lemma update_last_used_anatomy (env : Environment) (token : Token)
    (w : World) :
  ∃ token' evs w1,
    update_last_used env token w = (Returned token', w1)
    ∧ directory w1 = directory w
    ∧ clock w ≤ clock w1
    ∧ trace w1 = evs ++ trace w
    ∧ ((stale_in w token = false
        ∧ token' = token ∧ evs = [] ∧ tokens w1 = tokens w)
       ∨ (stale_in w token = true ∧ MAINTENANCE_MODE env = true
          ∧ token' = token ∧ evs = [maintenance_warning]
          ∧ tokens w1 = tokens w)
       ∨ (stale_in w token = true ∧ MAINTENANCE_MODE env = false
          ∧ token' = set_last_used (clock w1) token
          ∧ next_now w ≤ clock w1
          ∧ (last_used token = None → clock w1 = next_now w)
          ∧ evs = [EvTokenSave token']
          ∧ tokens w1 = <[key token := row token']> (tokens w))).
Proof.
  unfold update_last_used, last_used_is_stale, stale_in, bind.
  destruct (last_used token) as [lu|]; cbn -[seconds].
  - destruct (seconds 6 <? next_now w - lu) eqn:Hstale;
      [destruct (MAINTENANCE_MODE env) eqn:Hm|]; cbn -[seconds].
    + exists token, [maintenance_warning]. eexists.
      split; [reflexivity|]. simpl.
      split; [done|]. split; [apply next_now_ge|]. split; [done|].
      right; left. done.
    + eexists _, [EvTokenSave _], _. split; [reflexivity|]. simpl.
      split; [done|].
      pose proof (next_now_ge w) as Hfirst.
      pose proof (next_now_ge (snd (timezone_now w))) as Hsecond.
      simpl in Hsecond.
      split; [lia|]. split; [done|].
      right; right. repeat (split; [done|]). done.
    + eexists token, [], _. split; [reflexivity|]. simpl.
      split; [done|]. split; [apply next_now_ge|]. split; [done|].
      by left.
  - destruct (MAINTENANCE_MODE env) eqn:Hm; simpl.
    + exists token, [maintenance_warning]. eexists.
      split; [reflexivity|]. simpl.
      split; [done|]. split; [done|]. split; [done|].
      right; left. done.
    + eexists _, [EvTokenSave _], _. split; [reflexivity|]. simpl.
      split; [done|]. split; [apply next_now_ge|]. split; [done|].
      right; right. done.
Qed.

(** One call for a key that is in the table: the bookkeeping, then the rest. *)
Lemma call_anatomy (env : Environment) (k : string) (r : TokenRow)
    (w : World) :
  tokens w !! k = Some r →
  ∃ token' w1,
    update_last_used env {| key := k; row := r |} w = (Returned token', w1)
    ∧ authenticate_credentials env k w = enforce_and_resolve env token' w1
    ∧ user token' = user r
    ∧ expires token' = expires r
    ∧ ldap_contacts w1 = ldap_contacts w
    ∧ directory w1 = directory w.
Proof.
  intros Hk.
  destruct (after_call_found env k r w Hk) as (token' & w1 & Hupd & _).
  destruct (update_last_used_hands_over env k r w token' w1 Hk Hupd)
    as (_ & Huser & Hexp & _ & _ & Hdir & _ & Hldap).
  exists token', w1. repeat (split; [done|]). split; [|done].
  rewrite (authenticate_credentials_split env k r w Hk).
  unfold bind at 1. by rewrite Hupd.
Qed.

(** ** The failures and the fallbacks of [authenticate_credentials] *)

(** X1.  A key that is not in the table is refused with "Invalid token" and
    nothing else happens: the clock is not read, nothing is saved or logged,
    the directory is not reached. *)
Theorem unknown_key_is_refused (env : Environment) (k : string) (w : World) :
  tokens w !! k = None →
  authenticate_credentials env k w
  = (Raised (AuthenticationFailed "Invalid token"), w).
Proof.
  intros Hk. unfold authenticate_credentials, bind at 1.
  by rewrite (lookup_missing k w Hk).
Qed.

Lemma unknown_key_is_refused_witness :
  authenticate_credentials Scenario.ldap_auth "zzz"
    (Scenario.one_token Scenario.fresh_row 1000 [3000000%N])
  = (Raised (AuthenticationFailed "Invalid token"),
     Scenario.one_token Scenario.fresh_row 1000 [3000000%N]).
Proof.
  apply (unknown_key_is_refused Scenario.ldap_auth "zzz"). reflexivity.
Defined.

(** X2.  A token that is short of its expiration instant when the call is
    over, but whose user is inactive, is refused with "User inactive", and
    the directory has not been reached. *)
Theorem inactive_user_is_refused (env : Environment) (k : string)
    (r : TokenRow) (w : World) :
  tokens w !! k = Some r →
  is_active (user r) = false →
  (∀ e, expires r = Some e → clock (after_call env k w) < e) →
  fst (authenticate_credentials env k w)
  = Raised (AuthenticationFailed "User inactive")
  ∧ ldap_contacts (after_call env k w) = ldap_contacts w.
Proof.
  intros Hk Hinactive. unfold after_call.
  destruct (call_anatomy env k r w Hk)
    as (token' & w1 & _ & -> & Huser & Hexp & Hldap & _).
  destruct (enforce_and_resolve_anatomy env token' w1)
    as (out & evs & w3 & -> & _ & _ & _ & Htrace & Hcase).
  simpl. intros Hvalid. rewrite Huser, Hexp in Hcase.
  destruct Hcase as [(_ & _ & e & He & Hlt) | [(-> & -> & _) | (Hactive & _)]].
  - specialize (Hvalid e He). lia.
  - split; [done|]. unfold ldap_contacts in *. by rewrite Htrace.
  - congruence.
Qed.

Lemma inactive_user_is_refused_witness :
  fst (authenticate_credentials Scenario.ldap_auth "abc123"
         (Scenario.one_token Scenario.inactive_row 1003 []))
  = Raised (AuthenticationFailed "User inactive")
  ∧ ldap_contacts (after_call Scenario.ldap_auth "abc123"
                     (Scenario.one_token Scenario.inactive_row 1003 []))
    = [].
Proof.
  apply (inactive_user_is_refused Scenario.ldap_auth "abc123"
           Scenario.inactive_row).
  - reflexivity.
  - reflexivity.
  - intros e. discriminate.
Defined.

(** X3.  An active user's token, short of its expiration instant, is accepted
    with the locally stored user whenever the directory has nothing to say:
    the backend is not the LDAP backend, or [FIND_GROUP_PERMS] is off, or the
    directory does not know the user's name. *)
Theorem local_user_is_the_fallback (env : Environment) (k : string)
    (r : TokenRow) (w : World) :
  tokens w !! k = Some r →
  is_active (user r) = true →
  (∀ e, expires r = Some e → clock (after_call env k w) < e) →
  REMOTE_AUTH_BACKEND env ≠ LDAP_BACKEND
  ∨ FIND_GROUP_PERMS env = false
  ∨ directory w !! username (user r) = None →
  ∃ token',
    fst (authenticate_credentials env k w) = Returned (user r, token')
    ∧ key token' = k.
Proof.
  intros Hk Hactive Hvalid Hsilent.
  destruct (authenticate_credentials_passes env k r w Hk Hactive Hvalid)
    as (token' & w1 & w2 & Hupd & [_ Hd2 _ _] & ->).
  destruct (update_last_used_hands_over env k r w token' w1 Hk Hupd)
    as (Hkey & Huser & _ & _ & _ & Hdir & _).
  destruct (resolve_user_anatomy env token' w2)
    as (u & evs & w3 & -> & _ & _ & _ & _ & Hcase).
  exists token'. split; [|done]. simpl. f_equal. f_equal.
  rewrite Hd2, Hdir, Huser in Hcase.
  destruct Hcase as [(_ & _ & ->) | [(_ & _ & _ & ->) | (Hb & Hf & _ & ->)]];
    try done.
  destruct Hsilent as [Hsilent | [Hsilent | ->]]; [done | congruence | done].
Qed.

(** The LDAP backend with [FIND_GROUP_PERMS], and a user the directory does
    not know. *)
Lemma local_user_is_the_fallback_witness :
  ∃ token',
    fst (authenticate_credentials Scenario.ldap_auth "abc123"
           {| tokens := {[ "abc123"%string := Scenario.fresh_row ]};
              directory := ∅; clock := seconds 1000; pending := [];
              trace := [] |})
    = Returned (Scenario.alice, token')
    ∧ key token' = "abc123"%string.
Proof.
  apply (local_user_is_the_fallback Scenario.ldap_auth "abc123"
           Scenario.fresh_row).
  - reflexivity.
  - reflexivity.
  - intros e. discriminate.
  - right; right. reflexivity.
Defined.

(** X4.  Unless the configured backend is the LDAP backend, no call reaches
    the directory, whatever the key and the outcome. *)
Theorem no_ldap_without_the_ldap_backend (env : Environment) (k : string)
    (w : World) :
  REMOTE_AUTH_BACKEND env ≠ LDAP_BACKEND →
  ldap_contacts (after_call env k w) = ldap_contacts w.
Proof.
  intros Hbackend.
  destruct (tokens w !! k) as [r|] eqn:Hk;
    [|by rewrite (after_call_missing env k w Hk)].
  unfold after_call.
  destruct (call_anatomy env k r w Hk)
    as (token' & w1 & _ & -> & _ & _ & Hldap & _).
  destruct (enforce_and_resolve_anatomy env token' w1)
    as (out & evs & w3 & -> & _ & _ & _ & Htrace & Hcase).
  simpl. rewrite <- Hldap. unfold ldap_contacts. rewrite Htrace.
  destruct Hcase as [(_ & -> & _) | [(_ & -> & _) | (_ & _ & w2 & Hres & _ & Htr2)]];
    try done.
  destruct (resolve_user_anatomy env token' w2)
    as (u & evs' & w3' & Hres' & _ & _ & _ & Htrace' & Hcase).
  rewrite Hres' in Hres. injection Hres as -> ->.
  destruct Hcase as [(_ & -> & _) | [(Hb & _) | (Hb & _)]]; try done.
  simpl in Htrace'.
  assert (evs = []) as ->; [|done].
  apply (app_inv_tail (trace w1)). simpl. congruence.
Qed.

Lemma no_ldap_without_the_ldap_backend_witness :
  ldap_contacts (after_call Scenario.local_auth "abc123"
                   (Scenario.one_token Scenario.fresh_row 1000 []))
  = [].
Proof.
  apply (no_ldap_without_the_ldap_backend Scenario.local_auth "abc123"
           (Scenario.one_token Scenario.fresh_row 1000 [])).
  discriminate.
Defined.

(** The events the part after the bookkeeping adds: none, or the making of
    the LDAP backend, or that and one round trip to the directory. *)
Lemma enforce_and_resolve_events (env : Environment) (token : Token)
    (w1 : World) :
  ∃ evs,
    trace (snd (enforce_and_resolve env token w1)) = evs ++ trace w1
    ∧ tokens (snd (enforce_and_resolve env token w1)) = tokens w1
    ∧ clock w1 ≤ clock (snd (enforce_and_resolve env token w1))
    ∧ (evs = []
       ∨ (REMOTE_AUTH_BACKEND env = LDAP_BACKEND
          ∧ FIND_GROUP_PERMS env = false
          ∧ evs = [EvLdapBackend])
       ∨ (REMOTE_AUTH_BACKEND env = LDAP_BACKEND
          ∧ FIND_GROUP_PERMS env = true
          ∧ evs = [EvLdapPopulateUser (username (user token));
                   EvLdapBackend])).
Proof.
  destruct (enforce_and_resolve_anatomy env token w1)
    as (out & evs & w3 & -> & Ht & _ & Hc & Htrace & Hcase).
  simpl. exists evs. repeat (split; [done|]).
  destruct Hcase as [(_ & -> & _) | [(_ & -> & _) | (_ & _ & w2 & Hres & _ & Htr2)]];
    [by left | by left |].
  destruct (resolve_user_anatomy env token w2)
    as (u & evs' & w3' & Hres' & _ & _ & _ & Htrace' & Hcase).
  rewrite Hres' in Hres. injection Hres as -> ->.
  assert (evs = evs') as ->.
  { apply (app_inv_tail (trace w1)). congruence. }
  destruct Hcase as [(_ & -> & _) | [(Hb & Hf & -> & _) | (Hb & Hf & -> & _)]];
    auto.
Qed.

Lemma blind_to_ldap_events (p : Event → bool) (env : Environment)
    (token : Token) (w1 : World) :
  (∀ ev, is_log_or_ldap_event ev = true → p ev = false) →
  List.filter p (trace (snd (enforce_and_resolve env token w1)))
  = List.filter p (trace w1).
Proof.
  intros Hblind.
  destruct (enforce_and_resolve_events env token w1)
    as (evs & -> & _ & _ & [-> | [(_ & _ & ->) | (_ & _ & ->)]]);
    simpl; rewrite ?Hblind; done.
Qed.

(** ** Maintenance mode, with the outcome of the call *)

(** C6.  Under maintenance mode a call of [authenticate_credentials] leaves
    the whole token table as it found it and never calls [token.save()],
    whatever the key and the state of the token, and the call goes on as it
    would have.  An unknown key is refused with "Invalid token".  For a key
    in the table the bookkeeping raises nothing and hands on the instance
    exactly as it was loaded, [last_used] included, to lines 36 to 55; the
    call then fails as expired, or fails for its inactive user, or succeeds
    and returns that very instance. *)
Theorem maintenance_mode_never_saves (env : Environment) (k : string)
    (w : World) :
  MAINTENANCE_MODE env = true →
  tokens (after_call env k w) = tokens w
  ∧ saves (after_call env k w) = saves w
  ∧ (tokens w !! k = None →
     fst (authenticate_credentials env k w)
     = Raised (AuthenticationFailed "Invalid token"))
  ∧ (∀ r, tokens w !! k = Some r →
       (∃ w1,
          update_last_used env {| key := k; row := r |} w
          = (Returned {| key := k; row := r |}, w1)
          ∧ tokens w1 = tokens w
          ∧ authenticate_credentials env k w
            = enforce_and_resolve env {| key := k; row := r |} w1)
       ∧ ((fst (authenticate_credentials env k w)
           = Raised (AuthenticationFailed "Token expired")
           ∧ ∃ e, expires r = Some e ∧ e < clock (after_call env k w))
          ∨ (fst (authenticate_credentials env k w)
             = Raised (AuthenticationFailed "User inactive")
             ∧ is_active (user r) = false
             ∧ ∀ e, expires r = Some e → clock (after_call env k w) ≤ e)
          ∨ (is_active (user r) = true
             ∧ (∀ e, expires r = Some e → clock (after_call env k w) ≤ e)
             ∧ ∃ u, fst (authenticate_credentials env k w)
                    = Returned (u, {| key := k; row := r |})))).
Proof.
  intros Hm.
  destruct (tokens w !! k) as [r|] eqn:Hk.
  2: { rewrite (after_call_missing env k w Hk).
       repeat (split; [done|]). split; [|done].
       intros _. unfold authenticate_credentials, bind at 1.
       by rewrite (lookup_missing k w Hk). }
  assert (∃ w1,
    update_last_used env {| key := k; row := r |} w
    = (Returned {| key := k; row := r |}, w1)
    ∧ tokens w1 = tokens w
    ∧ saves w1 = saves w) as (w1 & Hupd & Ht1 & Hs1).
  { destruct (update_last_used_anatomy env {| key := k; row := r |} w)
      as (token' & evs & w1 & Hupd & _ & _ & Htrace & Hcase).
    exists w1. unfold saves. rewrite Htrace.
    destruct Hcase as [(_ & -> & -> & Ht) | [(_ & _ & -> & -> & Ht)
      | (_ & Hm' & _)]]; [done | done | congruence]. }
  assert (authenticate_credentials env k w
          = enforce_and_resolve env {| key := k; row := r |} w1) as Hrun.
  { rewrite (authenticate_credentials_split env k r w Hk).
    unfold bind at 1. by rewrite Hupd. }
  unfold after_call. rewrite Hrun.
  destruct (enforce_and_resolve_anatomy env {| key := k; row := r |} w1)
    as (out & evs & w3 & Hrest & Ht3 & _ & _ & Htrace & Hcase).
  pose proof (blind_to_ldap_events is_save_event env
                {| key := k; row := r |} w1 saves_ignore_noise) as Hs3.
  rewrite Hrest in Hs3 |- *. simpl in *.
  split; [congruence|]. split; [unfold saves in *; congruence|].
  split; [congruence|].
  intros r' [= <-]. split; [by exists w1|].
  destruct Hcase as [(-> & _ & Hexpired) | [(-> & _ & Hinactive & Hvalid)
    | (Hactive & Hvalid & w2 & Hres & _)]].
  - by left.
  - right; left. done.
  - right; right. repeat (split; [done|]).
    destruct (resolve_user_anatomy env {| key := k; row := r |} w2)
      as (u & evs' & w3' & Hres' & _).
    rewrite Hres' in Hres. injection Hres as -> _. by exists u.
Qed.

(** A never-used token under maintenance mode: the call succeeds with the
    instance as it was loaded, and the row still has no [last_used]. *)
Lemma maintenance_mode_never_saves_witness :
  (∃ u,
     fst (authenticate_credentials Scenario.maintenance "abc123"
            (Scenario.one_token Scenario.fresh_row 1000 []))
     = Returned (u, {| key := "abc123"; row := Scenario.fresh_row |}))
  ∧ tokens (after_call Scenario.maintenance "abc123"
              (Scenario.one_token Scenario.fresh_row 1000 []))
    = tokens (Scenario.one_token Scenario.fresh_row 1000 [])
  ∧ saves (after_call Scenario.maintenance "abc123"
             (Scenario.one_token Scenario.fresh_row 1000 []))
    = saves (Scenario.one_token Scenario.fresh_row 1000 []).
Proof.
  destruct (maintenance_mode_never_saves Scenario.maintenance "abc123"
              (Scenario.one_token Scenario.fresh_row 1000 []) eq_refl)
    as (Htable & Hsaves & _ & Hfound).
  destruct (Hfound Scenario.fresh_row eq_refl)
    as [_ [([=] & _) | [([=] & _) | (_ & _ & Hreturned)]]].
  split; [exact Hreturned|]. split; [exact Htable | exact Hsaves].
Defined.

(** What one call does to the token table and what an observer that looks
    past log lines and the directory sees of it: nothing, or one save of the
    presented token with a stamp the clock showed during the call. *)
Lemma after_call_table (env : Environment) (k : string) (w : World) :
  clock w ≤ clock (after_call env k w)
  ∧ ((tokens (after_call env k w) = tokens w
      ∧ (∀ p, (∀ ev, is_log_or_ldap_event ev = true → p ev = false) →
           List.filter p (trace (after_call env k w))
           = List.filter p (trace w))
      ∧ (tokens w !! k = None
         ∨ MAINTENANCE_MODE env = true
         ∨ ∃ r, tokens w !! k = Some r
                ∧ stale_in w {| key := k; row := r |} = false))
     ∨ (∃ r now,
          tokens w !! k = Some r
          ∧ MAINTENANCE_MODE env = false
          ∧ stale_in w {| key := k; row := r |} = true
          ∧ next_now w ≤ now ≤ clock (after_call env k w)
          ∧ (last_used r = None → now = next_now w)
          ∧ tokens (after_call env k w)
            = <[k := row (set_last_used now {| key := k; row := r |})]>
                (tokens w)
          ∧ ∀ p, (∀ ev, is_log_or_ldap_event ev = true → p ev = false) →
              List.filter p (trace (after_call env k w))
              = (if p (EvTokenSave
                         (set_last_used now {| key := k; row := r |}))
                 then [EvTokenSave
                         (set_last_used now {| key := k; row := r |})]
                 else [])
                ++ List.filter p (trace w))).
Proof.
  destruct (tokens w !! k) as [r|] eqn:Hk.
  2: { rewrite (after_call_missing env k w Hk).
       split; [done|]. left. by repeat split; [..|left]. }
  unfold after_call. rewrite (authenticate_credentials_split env k r w Hk).
  unfold bind at 1 2 3 4 5 6.
  destruct (update_last_used_anatomy env {| key := k; row := r |} w)
    as (token' & evs & w1 & -> & _ & Hc & Htrace & Hcase).
  destruct (enforce_and_resolve_events env token' w1)
    as (evs' & _ & Ht3 & Hc3 & _).
  split; [lia|].
  destruct Hcase as [(Hfresh & -> & -> & Ht) | [(_ & Hm & -> & -> & Ht)
    | (Hstale & Hm & -> & Hle & Hnone & -> & Ht)]].
  - left. split; [congruence|]. split; [|right; right; eauto].
    intros p Hblind. rewrite (blind_to_ldap_events p) by done.
    by rewrite Htrace.
  - left. split; [congruence|]. split; [|by right; left].
    intros p Hblind. rewrite (blind_to_ldap_events p) by done.
    rewrite Htrace. simpl. by rewrite Hblind.
  - right. exists r, (clock w1). repeat (split; [done || lia|]).
    split; [by rewrite Ht3, Ht|].
    intros p Hblind. rewrite (blind_to_ldap_events p) by done.
    rewrite Htrace. simpl.
    by destruct (p (EvTokenSave (set_last_used (clock w1) {| key := k; row := r |}))).
Qed.

(** ** What a call writes *)

(** X5.  With maintenance mode off, a call for a token whose [last_used] is
    unset, or more than 6 seconds behind the instant read on line 26, stamps
    the row with an instant the clock showed during the call, leaves its
    other columns alone and saves it once, whatever the outcome of the call.
    When [last_used] was unset the stamp is the first instant the call
    read. *)
Theorem stale_token_is_stamped (env : Environment) (k : string)
    (r : TokenRow) (w : World) :
  tokens w !! k = Some r →
  MAINTENANCE_MODE env = false →
  last_used r = None
  ∨ (∃ lu, last_used r = Some lu ∧ seconds 6 < next_now w - lu) →
  ∃ now,
    next_now w ≤ now ≤ clock (after_call env k w)
    ∧ (last_used r = None → now = next_now w)
    ∧ tokens (after_call env k w)
      = <[k := {| user := user r; expires := expires r;
                  last_used := Some now;
                  write_enabled := write_enabled r |}]> (tokens w)
    ∧ saves (after_call env k w)
      = EvTokenSave (set_last_used now {| key := k; row := r |}) :: saves w.
Proof.
  intros Hk Hm Hstale.
  destruct (after_call_table env k w)
    as [_ [(_ & _ & [Hnone | [Hm' | (r' & Hk' & Hfresh)]])
          | (r' & now & Hk' & _ & _ & Hnow & Hfirst & Ht & Htrace)]];
    [congruence | congruence | |].
  - exfalso. assert (r' = r) as -> by congruence.
    unfold stale_in in Hfresh. simpl in Hfresh.
    destruct Hstale as [Hnone | (lu & Hlu & Hgt)].
    + by rewrite Hnone in Hfresh.
    + rewrite Hlu in Hfresh. apply Z.ltb_ge in Hfresh. lia.
  - assert (r' = r) as -> by congruence.
    exists now. repeat (split; [done|]).
    unfold saves. rewrite (Htrace is_save_event saves_ignore_noise). done.
Qed.

(** A token last used at 1000 s is presented when the clock reads 1007 s. *)
Lemma stale_token_is_stamped_witness :
  ∃ now,
    next_now (Scenario.one_token Scenario.used_row 1007 []) ≤ now
    ∧ last_used <$> tokens (after_call Scenario.local_auth "abc123"
                              (Scenario.one_token Scenario.used_row 1007 []))
                      !! "abc123"%string
      = Some (Some now).
Proof.
  destruct (stale_token_is_stamped Scenario.local_auth "abc123"
              Scenario.used_row (Scenario.one_token Scenario.used_row 1007 []))
    as (now & [Hle _] & _ & Ht & _).
  - reflexivity.
  - reflexivity.
  - right. exists (seconds 1000). split; [reflexivity | by vm_compute].
  - exists now. split; [exact Hle|].
    rewrite Ht. by rewrite lookup_insert_eq.
Defined.

(** X6.  One call saves at most once and makes at most one round trip to the
    directory, whatever the key, the configuration and the outcome. *)
Theorem one_save_and_one_round_trip_at_most (env : Environment) (k : string)
    (w : World) :
  (length (saves (after_call env k w)) ≤ S (length (saves w)))%nat
  ∧ (length (populate_calls (after_call env k w))
     ≤ S (length (populate_calls w)))%nat.
Proof.
  split.
  - unfold saves.
    destruct (after_call_table env k w)
      as [_ [(_ & Htrace & _) | (r & now & _ & _ & _ & _ & _ & _ & Htrace)]];
      rewrite (Htrace is_save_event saves_ignore_noise); simpl; lia.
  - unfold populate_calls.
    destruct (tokens w !! k) as [r|] eqn:Hk;
      [|rewrite (after_call_missing env k w Hk); lia].
    unfold after_call. rewrite (authenticate_credentials_split env k r w Hk).
    unfold bind at 1.
    destruct (update_last_used_anatomy env {| key := k; row := r |} w)
      as (token' & evs & w1 & -> & _ & _ & Htrace & Hcase).
    destruct (enforce_and_resolve_events env token' w1)
      as (evs' & -> & _ & _ & Hcase').
    rewrite Htrace, !List.filter_app, !length_app.
    assert (length (List.filter is_populate_event evs) = 0)%nat as ->.
    { by destruct Hcase as [(_ & _ & -> & _) | [(_ & _ & _ & -> & _)
        | (_ & _ & _ & _ & _ & -> & _)]]. }
    destruct Hcase' as [-> | [(_ & _ & ->) | (_ & _ & ->)]]; simpl; lia.
Qed.

(** X7.  Under maintenance mode a call for a token whose [last_used] is unset,
    or more than 6 seconds old, logs the warning of line 31 once and leaves
    the table alone.  With maintenance mode off, or for a token whose
    [last_used] is at most 6 seconds old, nothing is logged. *)
Theorem maintenance_warning_is_logged (env : Environment) (k : string)
    (r : TokenRow) (w : World) :
  tokens w !! k = Some r →
  (MAINTENANCE_MODE env = true →
   last_used r = None
   ∨ (∃ lu, last_used r = Some lu ∧ seconds 6 < next_now w - lu) →
   log_lines (after_call env k w) = maintenance_warning :: log_lines w
   ∧ tokens (after_call env k w) = tokens w)
  ∧ (MAINTENANCE_MODE env = false
     ∨ (∃ lu, last_used r = Some lu ∧ next_now w - lu ≤ seconds 6) →
     log_lines (after_call env k w) = log_lines w).
Proof.
  intros Hk. unfold after_call, log_lines.
  rewrite (authenticate_credentials_split env k r w Hk). unfold bind at 1 2 3.
  destruct (update_last_used_anatomy env {| key := k; row := r |} w)
    as (token' & evs & w1 & -> & _ & _ & Htrace & Hcase).
  destruct (enforce_and_resolve_events env token' w1)
    as (evs' & -> & -> & _ & Hcase').
  rewrite Htrace, !List.filter_app.
  assert (List.filter is_log_event evs' = []) as ->.
  { by destruct Hcase' as [-> | [(_ & _ & ->) | (_ & _ & ->)]]. }
  unfold stale_in in Hcase. simpl in Hcase.
  split.
  - intros Hm Hstale.
    destruct Hcase as [(Hfresh & _) | [(_ & _ & _ & -> & Ht) | (_ & Hm' & _)]];
      [| done | congruence].
    exfalso. destruct Hstale as [Hnone | (lu & Hlu & Hgt)].
    + by rewrite Hnone in Hfresh.
    + rewrite Hlu in Hfresh. apply Z.ltb_ge in Hfresh. lia.
  - intros Hquiet.
    destruct Hcase as [(_ & _ & -> & _) | [(Hstale & Hm & _)
      | (_ & _ & _ & _ & _ & -> & _)]]; [done | | done].
    exfalso. destruct Hquiet as [Hm' | (lu & Hlu & Hle)]; [congruence|].
    rewrite Hlu in Hstale. apply Z.ltb_lt in Hstale. lia.
Qed.

Lemma maintenance_warning_is_logged_witness :
  log_lines (after_call Scenario.maintenance "abc123"
               (Scenario.one_token Scenario.fresh_row 1000 []))
  = [maintenance_warning]
  ∧ log_lines (after_call Scenario.local_auth "abc123"
                 (Scenario.one_token Scenario.fresh_row 1000 []))
    = [].
Proof.
  split.
  - destruct (maintenance_warning_is_logged Scenario.maintenance "abc123"
                Scenario.fresh_row
                (Scenario.one_token Scenario.fresh_row 1000 []) eq_refl)
      as [Hlogged _].
    destruct Hlogged as [Hlog _]; [reflexivity | by left | exact Hlog].
  - destruct (maintenance_warning_is_logged Scenario.local_auth "abc123"
                Scenario.fresh_row
                (Scenario.one_token Scenario.fresh_row 1000 []) eq_refl)
      as [_ Hsilent].
    apply Hsilent. by left.
Defined.

(** X8.  Whoever is authenticated holds a row of the table: the user of that
    row is active, the row is not past its expiration instant when the call
    is over, the token returned is that row as the table now holds it, and
    the user returned is the row's user or, under the LDAP backend with
    [FIND_GROUP_PERMS], the account the directory holds under that name. *)
Theorem authenticated_means_valid (env : Environment) (k : string)
    (w : World) (u : User) (token' : Token) :
  fst (authenticate_credentials env k w) = Returned (u, token') →
  ∃ r,
    tokens w !! k = Some r
    ∧ is_active (user r) = true
    ∧ (∀ e, expires r = Some e → clock (after_call env k w) ≤ e)
    ∧ key token' = k
    ∧ user token' = user r
    ∧ expires token' = expires r
    ∧ write_enabled token' = write_enabled r
    ∧ tokens (after_call env k w) !! k = Some (row token')
    ∧ (u = user r
       ∨ (REMOTE_AUTH_BACKEND env = LDAP_BACKEND
          ∧ FIND_GROUP_PERMS env = true
          ∧ directory w !! username (user r) = Some u)).
Proof.
  destruct (tokens w !! k) as [r|] eqn:Hk.
  2: { unfold authenticate_credentials, bind at 1.
       by rewrite (lookup_missing k w Hk). }
  intros Hok. exists r. split; [done|]. revert Hok. unfold after_call.
  destruct (after_call_found env k r w Hk) as (token1 & w1 & Hupd & _).
  destruct (update_last_used_hands_over env k r w token1 w1 Hk Hupd)
    as (Hkey & Huser & Hexp & Hwe & Hrow & Hdir & _ & _).
  destruct (call_anatomy env k r w Hk) as (token2 & w1' & Hupd' & -> & _).
  rewrite Hupd in Hupd'. injection Hupd' as <- <-.
  destruct (enforce_and_resolve_anatomy env token1 w1)
    as (out & evs & w3 & -> & Ht3 & _ & _ & _ & Hcase).
  simpl. intros ->.
  destruct Hcase as [([=] & _) | [([=] & _) | (Hactive & Hvalid & w2 & Hres & Hd2 & _)]].
  destruct (resolve_user_anatomy env token1 w2)
    as (u' & evs' & w3' & Hres' & _ & _ & _ & _ & Hcase).
  rewrite Hres' in Hres. injection Hres as -> -> ->.
  rewrite Huser in *. rewrite Hexp in Hvalid.
  repeat (split; [done|]). split; [by rewrite Ht3|].
  rewrite Hd2, Hdir in Hcase.
  destruct Hcase as [(_ & _ & ->) | [(_ & _ & _ & ->) | (Hb & Hf & _ & ->)]];
    [by left | by left |].
  destruct (directory w !! username (user r)) as [ldap_user|]; simpl;
    [by right | by left].
Qed.

Lemma authenticated_means_valid_witness :
  ∃ r,
    tokens (Scenario.one_token Scenario.fresh_row 1000 []) !! "abc123"%string
    = Some r
    ∧ is_active (user r) = true.
Proof.
  destruct (authenticated_means_valid Scenario.ldap_auth "abc123"
              (Scenario.one_token Scenario.fresh_row 1000 [])
              Scenario.alice_ldap
              (set_last_used (seconds 1000)
                 {| key := "abc123"; row := Scenario.fresh_row |}))
    as (r & Hk & Hactive & _).
  - by vm_compute.
  - by exists r.
Defined.

(** ** Runs of calls *)

Lemma after_call_other_rows (env : Environment) (k k' : string) (w : World) :
  k' ≠ k → tokens (after_call env k w) !! k' = tokens w !! k'.
Proof.
  intros Hne.
  destruct (after_call_table env k w)
    as [_ [(-> & _) | (r & now & _ & _ & _ & _ & _ & -> & _)]]; [done|].
  by rewrite lookup_insert_ne.
Qed.

(** A call rewrites no column but [last_used]. *)
Lemma after_call_columns (env : Environment) (k : string) (w : World) :
  user <$> tokens (after_call env k w) = user <$> tokens w
  ∧ expires <$> tokens (after_call env k w) = expires <$> tokens w
  ∧ write_enabled <$> tokens (after_call env k w)
    = write_enabled <$> tokens w.
Proof.
  destruct (after_call_table env k w)
    as [_ [(-> & _) | (r & now & Hk & _ & _ & _ & _ & -> & _)]]; [done|].
  rewrite !fmap_insert. simpl.
  repeat split; apply insert_id; by rewrite lookup_fmap, Hk.
Qed.

(** A stamp only moves forward. *)
Lemma after_call_stamp_forward (env : Environment) (k k0 : string)
    (r : TokenRow) (t : Instant) (w : World) :
  tokens w !! k0 = Some r →
  last_used r = Some t →
  ∃ r' t',
    tokens (after_call env k w) !! k0 = Some r'
    ∧ last_used r' = Some t'
    ∧ t ≤ t'.
Proof.
  intros Hk0 Hlu.
  destruct (after_call_table env k w)
    as [_ [(-> & _) | (r1 & now & Hk & _ & Hstale & Hnow & _ & -> & _)]].
  { exists r, t. by repeat split. }
  destruct (decide (k = k0)) as [->|Hne].
  - assert (r1 = r) as -> by congruence.
    unfold stale_in in Hstale. simpl in Hstale. rewrite Hlu in Hstale.
    apply Z.ltb_lt in Hstale.
    eexists _, now. rewrite lookup_insert_eq. repeat split.
    unfold seconds, MICROSECONDS_PER_SECOND in *. lia.
  - exists r, t. rewrite lookup_insert_ne by done. by repeat split.
Qed.

Lemma after_call_stamps_not_ahead (env : Environment) (k : string)
    (w : World) :
  stamps_not_ahead w → stamps_not_ahead (after_call env k w).
Proof.
  intros Hinv k' r' t'.
  destruct (after_call_table env k w)
    as [Hc [(-> & _) | (r & now & Hk & _ & _ & Hnow & _ & -> & _)]].
  { intros Hk' Hlu. specialize (Hinv k' r' t' Hk' Hlu). lia. }
  destruct (decide (k = k')) as [->|Hne].
  - rewrite lookup_insert_eq. intros [= <-]. simpl. intros [= <-]. lia.
  - rewrite lookup_insert_ne by done.
    intros Hk' Hlu. specialize (Hinv k' r' t' Hk' Hlu). lia.
Qed.

(** X9.  A run of calls leaves the rows of the keys it was not presented
    with exactly as they were. *)
Theorem run_touches_presented_keys_only (calls : list (Environment * string))
    (k : string) (w : World) :
  k ∉ calls.*2 →
  tokens (serve calls w) !! k = tokens w !! k.
Proof.
  revert w. induction calls as [|[env k'] calls IH]; intros w Hnot; [done|].
  simpl in *. apply not_elem_of_cons in Hnot as [Hne Hnot].
  rewrite IH by done. by apply after_call_other_rows.
Qed.

Lemma run_touches_presented_keys_only_witness :
  tokens (serve [(Scenario.local_auth, "abc123"%string);
                 (Scenario.local_auth, "zzz"%string)]
            {| tokens := <[ "def456"%string := Scenario.used_row ]>
                           {[ "abc123"%string := Scenario.fresh_row ]};
               directory := ∅; clock := seconds 2000; pending := [];
               trace := [] |}) !! "def456"%string
  = Some Scenario.used_row.
Proof.
  rewrite (run_touches_presented_keys_only
             [(Scenario.local_auth, "abc123"%string);
              (Scenario.local_auth, "zzz"%string)] "def456").
  - reflexivity.
  - simpl. intros Hin.
    apply elem_of_cons in Hin as [[=]|Hin].
    apply elem_of_cons in Hin as [[=]|Hin].
    by apply elem_of_nil in Hin.
Defined.

(** X10.  A run of calls never adds or removes a token and never rewrites the
    user, the expiration instant or the [write_enabled] flag of one: [last_used] is
    the only column [authenticate_credentials] writes. *)
Theorem run_writes_last_used_only (calls : list (Environment * string))
    (w : World) :
  user <$> tokens (serve calls w) = user <$> tokens w
  ∧ expires <$> tokens (serve calls w) = expires <$> tokens w
  ∧ write_enabled <$> tokens (serve calls w) = write_enabled <$> tokens w
  ∧ dom (tokens (serve calls w)) = dom (tokens w).
Proof.
  revert w. induction calls as [|[env k] calls IH]; intros w; [done|].
  simpl. destruct (IH (after_call env k w)) as (Hu & He & Hw & Hd).
  destruct (after_call_columns env k w) as (Hu' & He' & Hw').
  repeat split; try congruence.
  rewrite Hd. by rewrite <- (dom_fmap_L user), Hu', dom_fmap_L.
Qed.

(** X11.  Over a run of calls the [last_used] of a token never moves back. *)
Theorem last_used_only_moves_forward (calls : list (Environment * string))
    (k : string) (r : TokenRow) (t : Instant) (w : World) :
  tokens w !! k = Some r →
  last_used r = Some t →
  ∃ r' t',
    tokens (serve calls w) !! k = Some r'
    ∧ last_used r' = Some t'
    ∧ t ≤ t'.
Proof.
  revert r t w. induction calls as [|[env k'] calls IH]; intros r t w Hk Hlu.
  { exists r, t. by repeat split. }
  simpl.
  destruct (after_call_stamp_forward env k' k r t w Hk Hlu)
    as (r1 & t1 & Hk1 & Hlu1 & Hle1).
  destruct (IH r1 t1 (after_call env k' w) Hk1 Hlu1)
    as (r2 & t2 & Hk2 & Hlu2 & Hle2).
  exists r2, t2. repeat split; try done. lia.
Qed.

(** A token last used at 1000 s, presented at 1007 s and at 1020 s. *)
Lemma last_used_only_moves_forward_witness :
  ∃ r' t',
    tokens (serve [(Scenario.local_auth, "abc123"%string);
                   (Scenario.local_auth, "abc123"%string)]
              (Scenario.one_token Scenario.used_row 1007 [0; 0; 13000000]%N))
      !! "abc123"%string
    = Some r'
    ∧ last_used r' = Some t'
    ∧ seconds 1000 ≤ t'.
Proof.
  apply (last_used_only_moves_forward
           [(Scenario.local_auth, "abc123"%string);
            (Scenario.local_auth, "abc123"%string)]
           "abc123" Scenario.used_row (seconds 1000)).
  - reflexivity.
  - reflexivity.
Defined.

(** X12.  If no row carries a [last_used] later than the clock, the same holds
    after any run of calls: a stamp is always an instant the clock has
    shown. *)
Theorem stamps_stay_behind_the_clock (calls : list (Environment * string))
    (w : World) :
  stamps_not_ahead w → stamps_not_ahead (serve calls w).
Proof.
  revert w. induction calls as [|[env k] calls IH]; intros w Hinv; [done|].
  simpl. by apply IH, after_call_stamps_not_ahead.
Qed.

Lemma stamps_stay_behind_the_clock_witness :
  stamps_not_ahead
    (serve [(Scenario.local_auth, "abc123"%string);
            (Scenario.maintenance, "abc123"%string)]
       (Scenario.one_token Scenario.used_row 1007 [])).
Proof.
  apply (stamps_stay_behind_the_clock
           [(Scenario.local_auth, "abc123"%string);
            (Scenario.maintenance, "abc123"%string)]).
  intros k r t Hk Hlu. cbn [tokens Scenario.one_token] in Hk.
  apply lookup_singleton_Some in Hk as [_ <-].
  injection Hlu as <-. by vm_compute.
Defined.

(** X13.  Over any run of calls during which the clock advances by no more
    than 6 seconds, a token is saved at most once. *)
Theorem one_save_per_six_seconds (calls : list (Environment * string))
    (k : string) (w : World) :
  clock (serve calls w) - clock w ≤ seconds 6 →
  (length (saves_of k (serve calls w)) ≤ S (length (saves_of k w)))%nat.
Proof.
  revert w. induction calls as [|[env k'] calls IH]; intros w Hspan;
    simpl in *; [lia|].
  pose proof (serve_clock calls (after_call env k' w)) as Hmono.
  destruct (after_call_table env k' w)
    as [Hc [(_ & Htrace & _) | (r & now & _ & _ & _ & Hnow & _ & Ht & Htrace)]].
  - specialize (IH (after_call env k' w)).
    unfold saves_of in *.
    rewrite <- (Htrace (is_save_of k) (saves_of_ignore_noise k)).
    apply IH. lia.
  - destruct (decide (k' = k)) as [->|Hne].
    + pose proof (next_now_ge w) as Hge.
      destruct (fresh_row_survives_run calls k
                  (row (set_last_used now {| key := k; row := r |})) now
                  (after_call env k w)) as [_ ->].
      * rewrite Ht. by rewrite lookup_insert_eq.
      * reflexivity.
      * lia.
      * unfold saves_of.
        rewrite (Htrace (is_save_of k) (saves_of_ignore_noise k)).
        simpl. rewrite String.eqb_refl. simpl. lia.
    + specialize (IH (after_call env k' w)).
      unfold saves_of in *.
      rewrite (Htrace (is_save_of k) (saves_of_ignore_noise k)) in IH.
      simpl in IH. apply String.eqb_neq in Hne. rewrite Hne in IH.
      apply IH. lia.
Qed.

(** A never-used token presented three times within five seconds. *)
Lemma one_save_per_six_seconds_witness :
  (length (saves_of "abc123"
             (serve [(Scenario.local_auth, "abc123"%string);
                     (Scenario.local_auth, "abc123"%string);
                     (Scenario.local_auth, "abc123"%string)]
                (Scenario.one_token Scenario.fresh_row 1000
                   [1000000; 2000000; 2000000]%N)))
   ≤ 1)%nat.
Proof.
  apply (one_save_per_six_seconds
           [(Scenario.local_auth, "abc123"%string);
            (Scenario.local_auth, "abc123"%string);
            (Scenario.local_auth, "abc123"%string)]
           "abc123"
           (Scenario.one_token Scenario.fresh_row 1000
              [1000000; 2000000; 2000000]%N)).
  by vm_compute.
Defined.

(** ** The write gate, continued *)

Section GateContinued.

Context {View Obj : Type} {base : DjangoObjectPermissions View Obj}.

(** X14.  A request that carries a token and is allowed to go on, because its
    method is safe or because the token is [write_enabled], is answered by
    the base class: [has_permission] and [has_object_permission] are the call
    through [super()], with its result, its exception and its effects. *)
Theorem write_capable_token_goes_to_super (request : Request) (token : Token)
    (view : View) (obj : Obj) (w : World) :
  auth request = TokenCredential token →
  method request ∈ SAFE_METHODS ∨ write_enabled token = true →
  TokenPermissions.has_permission request view w
  = super_has_permission request view (snd (record EvSuperHasPermission w))
  ∧ TokenPermissions.has_object_permission request view obj w
    = super_has_object_permission request view obj
        (snd (record EvSuperHasObjectPermission w)).
Proof.
  intros Hauth Hmay.
  assert (TokenPermissions.token_forbids_write request w = (Returned false, w))
    as Hgate.
  { unfold TokenPermissions.token_forbids_write,
      TokenPermissions._verify_write_permission, bind.
    rewrite Hauth. cbn [isinstance_Token].
    destruct (str_in (method request) SAFE_METHODS) eqn:Hsafe; [done|].
    destruct Hmay as [Hin | Hmay]; [|by cbn; rewrite Hmay].
    apply str_in_elem_of in Hin. congruence. }
  unfold TokenPermissions.has_permission,
    TokenPermissions.has_object_permission, bind.
  by rewrite Hgate.
Qed.

(** X15.  [has_permission] and [has_object_permission] raise nothing of their
    own, whatever the request: either they answer [False] and leave the world
    as it was, or they are the call through [super()].  The [AttributeError]
    that [_verify_write_permission] raises on a request without a token never
    gets out, because the method is only called behind the [isinstance]
    test. *)
Theorem gate_denies_or_delegates (request : Request) (view : View)
    (obj : Obj) (w : World) :
  (TokenPermissions.has_permission request view w = (Returned false, w)
   ∨ TokenPermissions.has_permission request view w
     = super_has_permission request view (snd (record EvSuperHasPermission w)))
  ∧ (TokenPermissions.has_object_permission request view obj w
     = (Returned false, w)
     ∨ TokenPermissions.has_object_permission request view obj w
       = super_has_object_permission request view obj
           (snd (record EvSuperHasObjectPermission w))).
Proof.
  assert (∃ forbidden,
    TokenPermissions.token_forbids_write request w = (Returned forbidden, w))
    as (forbidden & Hgate).
  { unfold TokenPermissions.token_forbids_write,
      TokenPermissions._verify_write_permission, bind.
    destruct (auth request) as [token| |]; cbn [isinstance_Token];
      [|by eexists..].
    destruct (str_in (method request) SAFE_METHODS); cbn; [by eexists|].
    destruct (write_enabled token); by eexists. }
  unfold TokenPermissions.has_permission,
    TokenPermissions.has_object_permission, bind.
  rewrite Hgate. destruct forbidden; [by split; left | by split; right].
Qed.

End GateContinued.

(** Scenario B: a token that may write, presented with DELETE. *)
Lemma write_capable_token_goes_to_super_witness :
  fst (TokenPermissions.has_permission (base := Scenario.permissive)
         {| method := "DELETE";
            auth := TokenCredential
                      {| key := "abc123"; row := Scenario.fresh_row |};
            request_user := AuthenticatedUser Scenario.alice |} tt
         (Scenario.one_token Scenario.fresh_row 1000 []))
  = Returned true.
Proof.
  destruct (write_capable_token_goes_to_super (base := Scenario.permissive)
              {| method := "DELETE";
                 auth := TokenCredential
                           {| key := "abc123"; row := Scenario.fresh_row |};
                 request_user := AuthenticatedUser Scenario.alice |}
              {| key := "abc123"; row := Scenario.fresh_row |} tt tt
              (Scenario.one_token Scenario.fresh_row 1000 []))
    as [Hcollection _].
  - reflexivity.
  - by right.
  - by rewrite Hcollection.
Defined.

(** X16.  Called on its own, [_verify_write_permission] answers [True] to a
    safe method without looking at the credential, and raises
    [AttributeError] on any other method when the request carries no
    credential at all: [request.auth] is then [None]. *)
Theorem verify_write_permission_without_token (request : Request)
    (w : World) :
  (method request ∈ SAFE_METHODS →
   TokenPermissions._verify_write_permission request w
   = (Returned (PyBool true), w))
  ∧ (method request ∉ SAFE_METHODS →
     auth request = NoCredential →
     ∃ detail,
       TokenPermissions._verify_write_permission request w
       = (Raised (AttributeError detail), w)).
Proof.
  unfold TokenPermissions._verify_write_permission, bind. split.
  - intros Hsafe. apply str_in_elem_of in Hsafe. by rewrite Hsafe.
  - intros Hunsafe ->.
    destruct (str_in (method request) SAFE_METHODS) eqn:Hin.
    { exfalso. by apply Hunsafe, str_in_elem_of. }
    by eexists.
Qed.

Lemma verify_write_permission_without_token_witness :
  TokenPermissions._verify_write_permission Scenario.anonymous_get
    (Scenario.one_token Scenario.fresh_row 1000 [])
  = (Returned (PyBool true), Scenario.one_token Scenario.fresh_row 1000 [])
  ∧ ∃ detail,
      TokenPermissions._verify_write_permission Scenario.post_with_session
        (Scenario.one_token Scenario.fresh_row 1000 [])
      = (Raised (AttributeError detail),
         Scenario.one_token Scenario.fresh_row 1000 []).
Proof.
  split.
  - destruct (verify_write_permission_without_token Scenario.anonymous_get
                (Scenario.one_token Scenario.fresh_row 1000 []))
      as [Hsafe _].
    apply Hsafe. by apply str_in_elem_of.
  - destruct (verify_write_permission_without_token
                Scenario.post_with_session
                (Scenario.one_token Scenario.fresh_row 1000 []))
      as [_ Hunsafe].
    apply Hunsafe; [|reflexivity].
    intros Hin. by apply str_in_elem_of in Hin.
Defined.

(** ** The table of required permissions *)

(** One item of the dictionary: the method is the item's key, and the three
    facts hold of its value, or the search goes on. *)
Local Ltac perms_entry lit m :=
  destruct (String.eqb_spec lit m) as [<-|?]; cbn -[String.eqb];
  [split; [|split];
   [split; [intros _; set_solver | by eauto]
   |split; first [done | by intros [=]]
   |intros perms [= <-] Hnot;
    first [done | exfalso; apply Hnot; set_solver]]
  |].

(** X17.  [perms_map] has an entry for the three safe methods and for POST,
    PUT, PATCH and DELETE, and for no other method.  OPTIONS is the one
    method that asks for no permission; every method that is not safe asks
    for exactly one. *)
Theorem perms_map_covers_the_methods (m : string) :
  (is_Some (dict_get TokenPermissions.perms_map m)
   ↔ m ∈ SAFE_METHODS ∨ m ∈ ["POST"; "PUT"; "PATCH"; "DELETE"]%string)
  ∧ (dict_get TokenPermissions.perms_map m = Some [] ↔ m = "OPTIONS"%string)
  ∧ (∀ perms,
       dict_get TokenPermissions.perms_map m = Some perms →
       m ∉ SAFE_METHODS →
       length perms = 1%nat).
Proof.
  unfold dict_get, TokenPermissions.perms_map, SAFE_METHODS.
  cbn -[String.eqb].
  perms_entry "GET"%string m. perms_entry "OPTIONS"%string m.
  perms_entry "HEAD"%string m. perms_entry "POST"%string m.
  perms_entry "PUT"%string m. perms_entry "PATCH"%string m.
  perms_entry "DELETE"%string m.
  split; [|split].
  - split; [by intros [? [=]]|].
    intros [Hin|Hin];
      repeat (apply elem_of_cons in Hin as [->|Hin]; [done|]);
      by apply elem_of_nil in Hin.
  - split; [discriminate | congruence].
  - discriminate.
Qed.
